(** * Skrobak: the cascade-and-retry engine

    A shallow embedding of [src/index.ts] (the cascade, [scrape]),
    [src/utils/strategy.ts] (backoff, pool selection, the retry wrapper and
    the three mechanism executors) and [src/utils/browser.ts] (contexts and
    pages), followed by the properties the specification states about them.

    Conventions of the embedding.
    - JavaScript numbers are exact: delays are rationals ([Q]), attempt
      numbers, retry counts and HTTP status codes are integers ([Z]).
    - An [async] function is a computation [M A] over an explicit [World]:
      it returns or throws, and its effects on the world are kept in both
      cases.  Every [await] is sequential, as in the source.
    - Everything outside the engine answers as a function of a tick that
      advances at every consultation, so that any sequence of answers can be
      described: the transport, Playwright and [Math.random] through the
      environment of the world, the caller's functions (the retrieval
      function and the validator) through the configuration.
    - What happens is recorded in a chronological trace of events: calls of
      the collaborators, calls of the executors, suspensions and hook
      notifications.
    - Hooks are observers of type [(context) => void]: a registered hook is
      notified (the notification is recorded with its context) and returns.
    - [Math.floor(Math.random() * n)] is computed exactly, on a draw in
      [0, 1). *)

From Stdlib Require Import ZArith QArith List String Bool Arith Lia.
From Stdlib Require Import DecimalString.
From Stdlib Require Import Qpower Qround Lqa.
Import ListNotations.

Set Implicit Arguments.

Local Open Scope string_scope.
Local Open Scope list_scope.

(* ===================================================================== *)
(** ** Values and failures *)
(* ===================================================================== *)

(** The JavaScript values a caller-supplied function may produce. *)
Inductive JsValue : Type :=
| JsUndefined
| JsNull
| JsBoolean (b : bool)
| JsNumber (n : Z)
| JsString (s : string)
| JsObject (ref : nat).

(** [!v] is [negb (truthy v)]. *)
Definition truthy (v : JsValue) : bool :=
  match v with
  | JsUndefined | JsNull => false
  | JsBoolean b => b
  | JsNumber n => negb (n =? 0)%Z
  | JsString s => negb (String.eqb s "")
  | JsObject _ => true
  end.

(** [v === null || v === undefined] *)
Definition nullish (v : JsValue) : bool :=
  match v with
  | JsUndefined | JsNull => true
  | _ => false
  end.

(** Keys of [locales.json].  The file is not among the sources; an
    [Error (locales.k)] is identified by its key [k]. *)
Inductive LocaleKey : Type :=
| noStrategiesProvided
| allStrategiesFailed
| noResponseReceived
| responseValidationFailed
| customFetchNotProvided
| customFetchNoResponse.

(** What a collaborator may reject with: an [HttpError] (the class is
    exported by the package) or any other value. *)
Inductive Rejection : Type :=
| RejectHttp (message : string) (statusCode : Z)
| RejectWith (reason : JsValue).

(** What can be thrown inside the engine.  [HttpError] is the class of
    [src/types/error.ts], built as [new HttpError(message, statusCode)] and
    read through [error.statusCode]. *)
Inductive Thrown : Type :=
| Error (message : LocaleKey)
| HttpError (message : string) (statusCode : Z)
| ThrownValue (reason : JsValue).

Definition thrown_of (r : Rejection) : Thrown :=
  match r with
  | RejectHttp m c => HttpError m c
  | RejectWith v => ThrownValue v
  end.

(** The settlement of a promise returned by a collaborator. *)
Inductive Reply (A : Type) : Type :=
| Resolved (a : A)
| Rejected (r : Rejection).
Arguments Resolved {A} a.
Arguments Rejected {A} r.

(** A caller-supplied function: its answer may depend on its argument and on
    the moment (tick) it is called at, so that it may be stateful. *)
Definition Callback (A B : Type) : Type := A -> nat -> Reply B.

(* ===================================================================== *)
(** ** Configuration ([src/types]) *)
(* ===================================================================== *)

Inductive BrowserEngine : Type := chromium | firefox | webkit.

Inductive StrategyMechanism : Type := fetch | browser | custom.

Record ViewportSize : Type := { width : Z; height : Z }.

Record BrowserConfig : Type := {
  engine : option BrowserEngine;
  resources : option (list string);
  waitUntil : option string
}.

Record RetryConfig : Type := {
  count : option Z;
  delay : option Q;
  type : option string;
  statusCodes : option (list Z)
}.

Record RequestOptions : Type := {
  proxy : option string;
  userAgent : option string;
  viewport : option ViewportSize;
  headers : option (list (string * string));
  timeout : option Z
}.

Record ScrapeStrategy : Type := {
  mechanism : StrategyMechanism;
  useProxy : option bool
}.

(** [fetch]'s [Response] and Playwright's: the engine reads the status, and
    the body of the former. *)
Record Response : Type := { status : Z; body : string }.
Record PlaywrightResponse : Type := { pw_status : Z }.

Inductive ValidateResponseContext : Type :=
| ValidateFetch (response : Response)
| ValidateBrowser (response : PlaywrightResponse)
| ValidateCustom (response : JsValue).

Record ScrapeOptions : Type := {
  o_timeout : option Z;
  retries : option RetryConfig;
  proxies : option (list string);
  userAgents : option (list string);
  viewports : option (list ViewportSize);
  o_headers : option (list (string * string));
  validateResponse : option (Callback ValidateResponseContext bool)
}.

Record CustomConfig : Type := {
  fn : option (Callback (string * RequestOptions) JsValue)
}.

(** A hook is registered ([true]) or not. *)
Record ScrapeHooks : Type := {
  onRetryAttempt : bool;
  onRetryExhausted : bool;
  onStrategyFailed : bool;
  onAllStrategiesFailed : bool
}.

Record ScrapeConfig : Type := {
  options : option ScrapeOptions;
  browser_config : option BrowserConfig;
  custom_config : option CustomConfig;
  strategies : option (list ScrapeStrategy);
  hooks : option ScrapeHooks
}.

(** [defaults.json] is not among the sources: its entries are taken as
    given. *)
Record Defaults : Type := {
  retry_delay : Q;
  retry_type : string;
  retry_statusCodes : list Z;
  browser_engine : BrowserEngine
}.

(** Contexts of the four hooks ([src/types/hooks.ts]). *)
Record RetryAttemptContext : Type := {
  ra_error : Thrown;
  ra_attempt : Z;
  ra_maxAttempts : Z;
  ra_nextRetryDelay : Q;
  ra_retryConfig : RetryConfig
}.

Record RetryExhaustedContext : Type := {
  re_error : Thrown;
  re_totalAttempts : Z;
  re_retryConfig : RetryConfig
}.

Record StrategyFailedContext : Type := {
  sf_error : Thrown;
  sf_strategy : ScrapeStrategy;
  sf_strategyIndex : nat;
  sf_totalStrategies : nat
}.

Record AllStrategiesFailedContext : Type := {
  asf_lastError : Thrown;
  asf_strategies : list ScrapeStrategy;
  asf_totalAttempts : nat
}.

(* ===================================================================== *)
(** ** The world *)
(* ===================================================================== *)

(** A draw of [Math.random()]: a rational [num / den] in [0, 1). *)
Record UnitInterval : Type := {
  num : N;
  den : positive;
  below_one : (num <? Npos den)%N = true
}.

(** [Math.floor(r * n)] *)
Definition floor_scaled (r : UnitInterval) (n : nat) : nat :=
  N.to_nat ((num r * N.of_nat n) / Npos (den r)).

Record FetchOptions : Type := {
  fo_headers : list (string * string);
  fo_signal : option Z;
  fo_proxy : option string
}.

Record BrowserContextOptions : Type := {
  co_proxy : option string;
  co_userAgent : option string;
  co_viewport : option ViewportSize
}.

(** The collaborators: the answer each would give at a tick. *)
Record Env : Type := {
  math_random : nat -> UnitInterval;
  global_fetch : nat -> Reply (option Response);
  launch : nat -> Reply unit;
  newContext : nat -> Reply unit;
  newPage : nat -> Reply unit;
  goto : nat -> Reply (option PlaywrightResponse);
  action : nat -> Reply JsValue
}.

Inductive Event : Type :=
| EvExecuteStrategy (s : ScrapeStrategy)
| EvExecuteMechanism (m : StrategyMechanism)
| EvAction
| EvFetch (url : string) (o : FetchOptions)
| EvLaunch (e : BrowserEngine)
| EvNewContext (c : nat) (o : BrowserContextOptions)
| EvNewPage (c : nat)
| EvSetExtraHTTPHeaders (c : nat) (h : list (string * string))
| EvRoute (c : nat) (allowed : list string)
| EvGoto (c : nat) (url : string) (wait : option string) (t : option Z)
| EvCloseContext (c : nat)
| EvCustomFn (url : string) (o : RequestOptions)
| EvValidate (ctx : ValidateResponseContext)
| EvSleep (ms : Q)
| EvRetryAttempt (ctx : RetryAttemptContext)
| EvRetryExhausted (ctx : RetryExhaustedContext)
| EvStrategyFailed (ctx : StrategyFailedContext)
| EvAllStrategiesFailed (ctx : AllStrategiesFailedContext).

Record World : Type := {
  env : Env;
  tick : nat;
  trace : list Event;
  browsers : list BrowserEngine;
  open_contexts : list nat
}.

(* ===================================================================== *)
(** ** Computations *)
(* ===================================================================== *)

Inductive Outcome (A : Type) : Type :=
| Return (a : A)
| Throw (e : Thrown).
Arguments Return {A} a.
Arguments Throw {A} e.

Definition M (A : Type) : Type := World -> Outcome A * World.

Definition ret {A} (a : A) : M A := fun w => (Return a, w).

Definition throw {A} (e : Thrown) : M A := fun w => (Throw e, w).

Definition bind {A B} (m : M A) (k : A -> M B) : M B :=
  fun w =>
    match m w with
    | (Return a, w') => k a w'
    | (Throw e, w') => (Throw e, w')
    end.

(** [try { m } catch (error) { handler error }] *)
Definition try_catch {A} (m : M A) (handler : Thrown -> M A) : M A :=
  fun w =>
    match m w with
    | (Return a, w') => (Return a, w')
    | (Throw e, w') => handler e w'
    end.

Declare Scope js_scope.
Delimit Scope js_scope with js.
Notation "x <- m ;; k" := (bind m (fun x => k))
  (at level 61, m at next level, right associativity) : js_scope.
Notation "m ;; k" := (bind m (fun _ => k))
  (at level 61, right associativity) : js_scope.
Local Open Scope js_scope.

Definition when (b : bool) (m : M unit) : M unit :=
  if b then m else ret tt.

(** Record an event. *)
Definition emit (ev : Event) : M unit :=
  fun w =>
    (Return tt,
     {| env := env w; tick := tick w; trace := trace w ++ [ev];
        browsers := browsers w; open_contexts := open_contexts w |}).

(** Consult the oracle [f] at the current tick. *)
Definition consult {A} (f : nat -> A) : M A :=
  fun w =>
    (Return (f (tick w)),
     {| env := env w; tick := S (tick w); trace := trace w;
        browsers := browsers w; open_contexts := open_contexts w |}).

Definition ask {A} (f : Env -> nat -> A) : M A :=
  fun w => consult (f (env w)) w.

(** [await p], for a promise settled as the reply says. *)
Definition await {A} (r : Reply A) : M A :=
  match r with
  | Resolved a => ret a
  | Rejected e => throw (thrown_of e)
  end.

Definition call {A B} (f : Callback A B) (a : A) : M B :=
  r <- consult (f a) ;; await r.

Definition now : M nat := fun w => (Return (tick w), w).

(** Call a collaborator: the call is recorded, then its promise awaited. *)
Definition external {A} (ev : Event) (f : Env -> nat -> Reply A) : M A :=
  emit ev ;; r <- ask f ;; await r.

(** [hooks?.hook?.(context)] *)
Definition notify (hooks : option ScrapeHooks) (hook : ScrapeHooks -> bool)
    (ev : Event) : M unit :=
  match hooks with
  | Some h => when (hook h) (emit ev)
  | None => ret tt
  end.

(** [await sleep(ms)] *)
Definition sleep (ms : Q) : M unit := emit (EvSleep ms).

(* ===================================================================== *)
(** ** Results ([src/types/result.ts]) *)
(* ===================================================================== *)

(** [$] is the lazily parsed view of [html], the body read from the
    response. *)
Record ScrapeResultFetch : Type := {
  f_response : Response;
  f_html : string
}.

Record ScrapeResultBrowser : Type := {
  b_page : nat;
  b_response : PlaywrightResponse;
  cleanup : M unit
}.

Record ScrapeResultCustom : Type := {
  c_response : JsValue
}.

Inductive ScrapeResult : Type :=
| ResultFetch (r : ScrapeResultFetch)
| ResultBrowser (r : ScrapeResultBrowser)
| ResultCustom (r : ScrapeResultCustom).

Definition result_mechanism (r : ScrapeResult) : StrategyMechanism :=
  match r with
  | ResultFetch _ => fetch
  | ResultBrowser _ => browser
  | ResultCustom _ => custom
  end.

(* ===================================================================== *)
(** ** [src/utils/browser.ts] *)
(* ===================================================================== *)

Definition engine_eqb (a b : BrowserEngine) : bool :=
  match a, b with
  | chromium, chromium | firefox, firefox | webkit, webkit => true
  | _, _ => false
  end.

Definition cached (e : BrowserEngine) : M bool :=
  fun w => (Return (existsb (engine_eqb e) (browsers w)), w).

Definition cache (e : BrowserEngine) : M unit :=
  fun w =>
    (Return tt,
     {| env := env w; tick := tick w; trace := trace w;
        browsers := e :: browsers w; open_contexts := open_contexts w |}).

Definition register_context (c : nat) : M unit :=
  fun w =>
    (Return tt,
     {| env := env w; tick := tick w; trace := trace w;
        browsers := browsers w; open_contexts := c :: open_contexts w |}).

(** [context.close()], which is taken to succeed. *)
Definition close (c : nat) : M unit :=
  fun w =>
    (Return tt,
     {| env := env w; tick := tick w; trace := trace w ++ [EvCloseContext c];
        browsers := browsers w;
        open_contexts :=
          filter (fun c' => negb (Nat.eqb c' c)) (open_contexts w) |}).

Definition is_open (c : nat) (w : World) : bool :=
  existsb (Nat.eqb c) (open_contexts w).

Definition getBrowser (e : BrowserEngine) : M BrowserEngine :=
  existingBrowser <- cached e ;;
  if existingBrowser then ret e
  else
    external (EvLaunch e) launch ;;
    cache e ;;
    ret e.

(** [if (x)] on an optional string. *)
Definition present (s : option string) : option string :=
  match s with
  | Some v => if String.eqb v "" then None else Some v
  | None => None
  end.

(** The context is named after the tick it is created at. *)
Definition createContext (b : BrowserEngine) (o : RequestOptions) : M nat :=
  let contextOptions :=
    {| co_proxy := present (proxy o);
       co_userAgent := present (userAgent o);
       co_viewport := viewport o |} in
  c <- now ;;
  external (EvNewContext c contextOptions) newContext ;;
  register_context c ;;
  ret c.

Definition createPage (c : nat) (config : BrowserConfig)
    (requestOptions : RequestOptions) : M nat :=
  external (EvNewPage c) newPage ;;
  match headers requestOptions with
  | Some h => emit (EvSetExtraHTTPHeaders c h)
  | None => ret tt
  end ;;
  match resources config with
  | Some (r :: rs) => emit (EvRoute c (r :: rs))
  | _ => ret tt
  end ;;
  ret c.

(* ===================================================================== *)
(** ** [src/utils/fetch.ts] *)
(* ===================================================================== *)

Definition composeFetchOptions (h : list (string * string))
    (signal : option Z) (p : option string) : FetchOptions :=
  {| fo_headers := h; fo_signal := signal; fo_proxy := present p |}.

(** [headers.set(name, value)] *)
Definition headers_set (name value : string) (h : list (string * string))
  : list (string * string) :=
  filter (fun kv => negb (String.eqb (fst kv) name)) h ++ [(name, value)].

(* ===================================================================== *)
(** ** [src/utils/strategy.ts] *)
(* ===================================================================== *)

Definition calculateRetryDelay (attempt : Z) (baseDelay : Q)
    (retryType : string) : Q :=
  if String.eqb retryType "exponential" then (baseDelay * 2 ^ attempt)%Q
  else if String.eqb retryType "linear" then
    (baseDelay * inject_Z (attempt + 1))%Q
  else if String.eqb retryType "constant" then baseDelay
  else (baseDelay * 2 ^ attempt)%Q.

(** [None] stands for [undefined], both as the collection and as the
    result; [Math.random] is consulted only past the guard. *)
Definition getRandomFrom {T} (items : option (list T)) : M (option T) :=
  match items with
  | None => ret None
  | Some l =>
      if Nat.eqb (List.length l) 0 then ret None
      else
        r <- ask math_random ;;
        ret (nth_error l (floor_scaled r (List.length l)))
  end.

(** [codes.includes(c)] *)
Definition includes (codes : list Z) (c : Z) : bool :=
  existsb (Z.eqb c) codes.

(** [error instanceof HttpError && !codes.includes(error.statusCode)] *)
Definition aborts_retrying (codes : list Z) (error : Thrown) : bool :=
  match error with
  | HttpError _ c => negb (includes codes c)
  | _ => false
  end.

Section Engine.

Variable defaults : Defaults.

Section WithRetry.

Context {T : Type}.
Variable fn : M T.
Variable retryConfig : RetryConfig.
Variable hooks' : option ScrapeHooks.
Variable count' : Z.

Let delay' : Q :=
  match delay retryConfig with
  | Some d => d
  | None => retry_delay defaults
  end.

Let type' : string :=
  match type retryConfig with
  | Some t => t
  | None => retry_type defaults
  end.

Let retriableStatusCodes : list Z :=
  match statusCodes retryConfig with
  | Some c => c
  | None => retry_statusCodes defaults
  end.

(** The body of the [catch] clause, up to the end of the iteration. *)
Definition on_failure (attempt : Z) (error : Thrown) : M unit :=
  (if aborts_retrying retriableStatusCodes error then throw error
   else ret tt) ;;
  when (attempt <? count')%Z
    (let retryDelay := calculateRetryDelay attempt delay' type' in
     notify hooks' onRetryAttempt
       (EvRetryAttempt
          {| ra_error := error;
             ra_attempt := attempt + 1;
             ra_maxAttempts := count' + 1;
             ra_nextRetryDelay := retryDelay;
             ra_retryConfig := retryConfig |}) ;;
     sleep retryDelay).

(** [for (let attempt = 0; attempt <= count; attempt++)], followed by the
    statements after the loop.  [iterations] is the number of iterations
    left: the body runs for [attempt = 0, ..., count]. *)
Fixpoint retry_loop (iterations : nat) (attempt : Z) (lastError : Thrown)
  : M T :=
  match iterations with
  | S iterations' =>
      try_catch fn (fun error =>
        on_failure attempt error ;;
        retry_loop iterations' (attempt + 1) error)
  | O =>
      notify hooks' onRetryExhausted
        (EvRetryExhausted
           {| re_error := lastError;
              re_totalAttempts := count' + 1;
              re_retryConfig := retryConfig |}) ;;
      throw lastError
  end.

End WithRetry.

Definition withRetry {T} (fn : M T) (retryConfig : option RetryConfig)
    (hooks' : option ScrapeHooks) : M T :=
  match retryConfig with
  | None => fn
  | Some rc =>
      match count rc with
      | None => fn
      | Some n =>
          if (n =? 0)%Z then fn
          else
            retry_loop fn rc hooks' n (Z.to_nat (n + 1)) 0
              (ThrownValue JsUndefined)
      end
  end.

(** [config.options?.field] *)
Definition option_field {A} (config : ScrapeConfig)
    (field : ScrapeOptions -> option A) : option A :=
  match options config with
  | Some o => field o
  | None => None
  end.

(** [config.custom?.fn] *)
Definition custom_fn (config : ScrapeConfig)
  : option (Callback (string * RequestOptions) JsValue) :=
  match custom_config config with
  | Some c => fn c
  | None => None
  end.

(** The validation step shared by the three executors:
    [if (config.options?.validateResponse) { if (!validate(ctx)) throw }]. *)
Definition validate (config : ScrapeConfig) (ctx : ValidateResponseContext)
  : M unit :=
  match option_field config validateResponse with
  | Some v =>
      emit (EvValidate ctx) ;;
      ok <- call v ctx ;;
      if ok then ret tt else throw (Error responseValidationFailed)
  | None => ret tt
  end.

(** The options handed to [fetch]: the headers, with the selected user
    agent set over them, the abort signal of the timeout, and the proxy. *)
Definition fetchOptions_of (o : RequestOptions) : FetchOptions :=
  let h := match headers o with Some h => h | None => [] end in
  let signal :=
    match timeout o with
    | Some t => if (t =? 0)%Z then None else Some t
    | None => None
    end in
  let h :=
    match present (userAgent o) with
    | Some ua => headers_set "User-Agent" ua h
    | None => h
    end in
  composeFetchOptions h signal (proxy o).

Definition executeFetchMechanism (url : string) (config : ScrapeConfig)
    (o : RequestOptions) : M ScrapeResultFetch :=
  let fetchOptions := fetchOptions_of o in
  response <- external (EvFetch url fetchOptions) global_fetch ;;
  match response with
  | None => throw (Error noResponseReceived)
  | Some response =>
      validate config (ValidateFetch response) ;;
      let html := body response in
      ret {| f_response := response; f_html := html |}
  end.

(** [config.browser ?? {}] *)
Definition browserConfig_of (config : ScrapeConfig) : BrowserConfig :=
  match browser_config config with
  | Some b => b
  | None => {| engine := None; resources := None; waitUntil := None |}
  end.

(** [browserConfig.engine ?? defaults.browser.engine] *)
Definition engine_of (config : ScrapeConfig) : BrowserEngine :=
  match engine (browserConfig_of config) with
  | Some e => e
  | None => browser_engine defaults
  end.

(** The statements of the [try] block of [executeBrowserMechanism]. *)
Definition navigate (url : string) (config : ScrapeConfig)
    (o : RequestOptions) (context : nat) : M ScrapeResultBrowser :=
  let browserConfig := browserConfig_of config in
  page <- createPage context browserConfig o ;;
  response <- external
    (EvGoto context url (waitUntil browserConfig) (timeout o)) goto ;;
  match response with
  | None => throw (Error noResponseReceived)
  | Some response =>
      validate config (ValidateBrowser response) ;;
      ret {| b_page := page; b_response := response;
             cleanup := close context |}
  end.

Definition executeBrowserMechanism (url : string) (config : ScrapeConfig)
    (o : RequestOptions) : M ScrapeResultBrowser :=
  let browserConfig := browserConfig_of config in
  let engine' := engine_of config in
  b <- getBrowser engine' ;;
  context <- createContext b o ;;
  try_catch (navigate url config o context)
    (fun error => close context ;; throw error).

Definition executeCustomMechanism (url : string) (config : ScrapeConfig)
    (o : RequestOptions) : M ScrapeResultCustom :=
  match custom_fn config with
  | Some f =>
      emit (EvCustomFn url o) ;;
      response <- call f (url, o) ;;
      if nullish response then throw (Error customFetchNoResponse)
      else
        validate config (ValidateCustom response) ;;
        ret {| c_response := response |}
  | None => throw (Error customFetchNotProvided)
  end.

(** [status < 200 || status >= 300] *)
Definition outside_2xx (status' : Z) : bool :=
  ((status' <? 200) || (status' >=? 300))%Z.

(** [`HTTP error ${status}`] *)
Definition http_error_message (status' : Z) : string :=
  String.append "HTTP error " (NilZero.string_of_int (Z.to_int status')).

Definition executeMechanism (url : string) (config : ScrapeConfig)
    (strategy : ScrapeStrategy) (o : RequestOptions) : M ScrapeResult :=
  emit (EvExecuteMechanism (mechanism strategy)) ;;
  rs <- match mechanism strategy with
        | fetch =>
            result <- executeFetchMechanism url config o ;;
            ret (ResultFetch result, Some (status (f_response result)))
        | browser =>
            result <- executeBrowserMechanism url config o ;;
            ret (ResultBrowser result, Some (pw_status (b_response result)))
        | custom =>
            result <- executeCustomMechanism url config o ;;
            ret (ResultCustom result, None)
        end ;;
  match snd rs with
  | Some status' =>
      if outside_2xx status'
      then throw (HttpError (http_error_message status') status')
      else ret (fst rs)
  | None => ret (fst rs)
  end.

Definition executeStrategy (url : string) (config : ScrapeConfig)
    (strategy : ScrapeStrategy) : M ScrapeResult :=
  emit (EvExecuteStrategy strategy) ;;
  proxy' <- match useProxy strategy with
            | Some true => getRandomFrom (option_field config proxies)
            | _ => ret None
            end ;;
  userAgent' <- getRandomFrom (option_field config userAgents) ;;
  viewport' <- getRandomFrom (option_field config viewports) ;;
  let o :=
    {| proxy := proxy';
       userAgent := userAgent';
       viewport := viewport';
       headers := option_field config o_headers;
       timeout := option_field config o_timeout |} in
  withRetry (executeMechanism url config strategy o)
    (option_field config retries) (hooks config).

(* ===================================================================== *)
(** ** [src/index.ts] *)
(* ===================================================================== *)

(** [for (const [index, strategy] of strategies.entries())], followed by
    the statement after the loop; [rest] is what is left to iterate. *)
Fixpoint cascade (url : string) (config : ScrapeConfig)
    (strategies' : list ScrapeStrategy) (index : nat)
    (rest : list ScrapeStrategy) : M ScrapeResult :=
  match rest with
  | strategy :: rest' =>
      try_catch (executeStrategy url config strategy) (fun error =>
        notify (hooks config) onStrategyFailed
          (EvStrategyFailed
             {| sf_error := error;
                sf_strategy := strategy;
                sf_strategyIndex := index;
                sf_totalStrategies := List.length strategies' |}) ;;
        (if Nat.eqb index (List.length strategies' - 1) then
           notify (hooks config) onAllStrategiesFailed
             (EvAllStrategiesFailed
                {| asf_lastError := error;
                   asf_strategies := strategies';
                   asf_totalAttempts := List.length strategies' |}) ;;
           throw error
         else ret tt) ;;
        cascade url config strategies' (S index) rest')
  | [] => throw (Error allStrategiesFailed)
  end.

Definition scrape (url : string) (config : ScrapeConfig) : M ScrapeResult :=
  match strategies config with
  | None | Some [] => throw (Error noStrategiesProvided)
  | Some strategies' => cascade url config strategies' 0 strategies'
  end.

End Engine.

(* ===================================================================== *)
(** ** Observations on a run *)
(* ===================================================================== *)






Definition is_close (ev : Event) : bool :=
  match ev with EvCloseContext _ => true | _ => false end.




(** The computation [m] only appends events satisfying [P] to the trace. *)
Definition emits (P : Event -> bool) {A} (m : M A) : Prop :=
  forall w, exists evs,
    trace (snd (m w)) = trace w ++ evs /\ forallb P evs = true.




(** [hooks?.hook] is defined. *)
Definition registered (hooks' : option ScrapeHooks)
    (hook : ScrapeHooks -> bool) : bool :=
  match hooks' with
  | Some h => hook h
  | None => false
  end.

(** [retryConfig.statusCodes ?? defaults.retry.statusCodes] *)
Definition retriable_codes (defaults : Defaults) (rc : RetryConfig)
  : list Z :=
  match statusCodes rc with
  | Some c => c
  | None => retry_statusCodes defaults
  end.

(** The world [k] consultations and the events [evs] later. *)
Definition after (k : nat) (evs : list Event) (w : World) : World :=
  {| env := env w; tick := tick w + k; trace := trace w ++ evs;
     browsers := browsers w; open_contexts := open_contexts w |}.

(** How an awaited reply ends. *)
Definition settled {A} (r : Reply A) : Outcome A :=
  match r with
  | Resolved a => Return a
  | Rejected e => Throw (thrown_of e)
  end.

(** What the retry wrapper records between a failed attempt and the next:
    the [onRetryAttempt] notification, if the hook is registered, and the
    suspension. *)
Definition retry_pause (defaults : Defaults) (rc : RetryConfig)
    (hooks' : option ScrapeHooks) (n attempt : Z) (error : Thrown)
  : list Event :=
  if (attempt <? n)%Z then
    let retryDelay :=
      calculateRetryDelay attempt
        (match delay rc with Some d => d | None => retry_delay defaults end)
        (match type rc with Some t => t | None => retry_type defaults end) in
    (if registered hooks' onRetryAttempt then
       [EvRetryAttempt
          {| ra_error := error;
             ra_attempt := attempt + 1;
             ra_maxAttempts := n + 1;
             ra_nextRetryDelay := retryDelay;
             ra_retryConfig := rc |}]
     else [])
    ++ [EvSleep retryDelay]
  else [].



(** The strategies [ss], the first of which has index [i], are executed in
    turn from [w] and each fails: [errors] are what they fail with, and [w']
    is the world after the last failure and its [onStrategyFailed]
    notification. *)
Inductive fail_in_turn (defaults : Defaults) (url : string)
    (config : ScrapeConfig) (total : nat)
  : nat -> list ScrapeStrategy -> World -> list Thrown -> World -> Prop :=
| fail_none : forall i w,
    fail_in_turn defaults url config total i [] w [] w
| fail_next : forall i s ss w e w1 errors w',
    executeStrategy defaults url config s w = (Throw e, w1) ->
    fail_in_turn defaults url config total (S i) ss
      (snd (notify (hooks config) onStrategyFailed
              (EvStrategyFailed
                 {| sf_error := e; sf_strategy := s;
                    sf_strategyIndex := i; sf_totalStrategies := total |})
              w1))
      errors w' ->
    fail_in_turn defaults url config total i (s :: ss) w (e :: errors) w'.


(** What [createPage] records once the page is there: the extra headers and
    the routing of resources, when configured. *)
Definition page_setup (c : nat) (config : BrowserConfig)
    (o : RequestOptions) : list Event :=
  match headers o with
  | Some h => [EvSetExtraHTTPHeaders c h]
  | None => []
  end
  ++ match resources config with
     | Some (r :: rs) => [EvRoute c (r :: rs)]
     | _ => []
     end.

(** The [onStrategyFailed] notification, if the hook is registered. *)
Definition strategy_failed (hooks' : option ScrapeHooks) (e : Thrown)
    (s : ScrapeStrategy) (i total : nat) : list Event :=
  if registered hooks' onStrategyFailed then
    [EvStrategyFailed
       {| sf_error := e; sf_strategy := s;
          sf_strategyIndex := i; sf_totalStrategies := total |}]
  else [].

(** The [onAllStrategiesFailed] notification, if the hook is registered. *)
Definition all_failed (hooks' : option ScrapeHooks)
    (ss : list ScrapeStrategy) (lastError : Thrown) : list Event :=
  if registered hooks' onAllStrategiesFailed then
    [EvAllStrategiesFailed
       {| asf_lastError := lastError;
          asf_strategies := ss;
          asf_totalAttempts := List.length ss |}]
  else [].

(* ===================================================================== *)
(** ** Sample configurations and environments *)
(* ===================================================================== *)

Module Sample.

Definition defaults : Defaults :=
  {| retry_delay := 5000;
     retry_type := "exponential";
     retry_statusCodes := [408; 429; 500; 502; 503; 504]%Z;
     browser_engine := chromium |}.

Definition two_thirds : UnitInterval :=
  {| num := 2; den := 3; below_one := eq_refl |}.

Definition ok_response : Response := {| status := 200; body := "<html/>" |}.

(** Every collaborator answers favourably; the opaque action fails. *)
Definition calm : Env :=
  {| math_random := fun _ => two_thirds;
     global_fetch := fun _ => Resolved (Some ok_response);
     launch := fun _ => Resolved tt;
     newContext := fun _ => Resolved tt;
     newPage := fun _ => Resolved tt;
     goto := fun _ => Resolved (Some {| pw_status := 200 |});
     action := fun _ => Rejected (RejectWith (JsString "fail")) |}.

Definition start (e : Env) : World :=
  {| env := e; tick := 0; trace := []; browsers := []; open_contexts := [] |}.



Definition with_goto (f : nat -> Reply (option PlaywrightResponse)) : Env :=
  {| math_random := math_random calm;
     global_fetch := global_fetch calm;
     launch := launch calm;
     newContext := newContext calm;
     newPage := newPage calm;
     goto := f;
     action := action calm |}.





Definition all_hooks : ScrapeHooks :=
  {| onRetryAttempt := true; onRetryExhausted := true;
     onStrategyFailed := true; onAllStrategiesFailed := true |}.

Definition no_options : ScrapeOptions :=
  {| o_timeout := None; retries := None; proxies := None;
     userAgents := None; viewports := None; o_headers := None;
     validateResponse := None |}.



Definition via (m : StrategyMechanism) : ScrapeStrategy :=
  {| mechanism := m; useProxy := None |}.

Definition config_of (o : ScrapeOptions) (c : option CustomConfig)
    (ss : list ScrapeStrategy) : ScrapeConfig :=
  {| options := Some o; browser_config := None; custom_config := c;
     strategies := Some ss; hooks := Some all_hooks |}.


(** A retrieval function that resolves with [v] whenever it is called. *)
Definition answering (v : JsValue) : CustomConfig :=
  {| fn := Some (fun _ _ => Resolved v) |}.



(** Navigation yields no response. *)
Definition blank : Env := with_goto (fun _ => Resolved None).

(** Navigation answers 404. *)
Definition missing_page : Env :=
  with_goto (fun _ => Resolved (Some {| pw_status := 404 |})).

Definition request : RequestOptions :=
  {| proxy := None; userAgent := None; viewport := None;
     headers := None; timeout := None |}.

End Sample.

(* ===================================================================== *)
(** ** [src/utils/sleep.ts] *)
(* ===================================================================== *)

(** The draw as a number. *)
Definition draw_value (r : UnitInterval) : Q := Z.of_N (num r) # den r.

Definition randomSleep (minMs maxMs : Q) : M unit :=
  let range := (maxMs - minMs)%Q in
  random <- ask math_random ;;
  let delay :=
    Qfloor (minMs + range * draw_value random * draw_value random)%Q in
  sleep (inject_Z delay).

(* ===================================================================== *)
(** ** [src/types/scrapeMany.ts], [src/utils/scrapeMany.ts] *)
(* ===================================================================== *)

Record ScrapeManyStats : Type := {
  stats_initial : nat;
  stats_discovered : nat;
  stats_processed : nat;
  stats_remaining : nat;
  stats_succeeded : nat;
  stats_failed : nat
}.

(** The contexts of the two handlers; their [addUrls] is what the handler's
    answer says it is called with. *)
Record ScrapeManySuccessContext : Type := {
  sc_result : ScrapeResult;
  sc_url : string;
  sc_index : nat;
  sc_stats : ScrapeManyStats
}.

Record ScrapeManyErrorContext : Type := {
  ec_error : Thrown;
  ec_url : string;
  ec_index : nat;
  ec_stats : ScrapeManyStats
}.

(** What a handler does when it is called: the URLs it passes to [addUrls]
    while it runs, call after call, and how its promise settles. *)
Record Handling : Type := {
  adds : list string;
  settles : Reply unit
}.

Definition Handler (A : Type) : Type := A -> nat -> Handling.

Record Delays : Type := { delay_min : Q; delay_max : Q }.

Record ScrapeManyConfig : Type := {
  onSuccess : option (Handler ScrapeManySuccessContext);
  onError : option (Handler ScrapeManyErrorContext);
  delays : option Delays
}.

Record ScrapeManyResult : Type := {
  total : nat;
  succeeded : nat;
  failed : nat
}.

(** A [Set<string>], in insertion order. *)
Definition set_has (s : list string) (x : string) : bool :=
  existsb (String.eqb x) s.

Definition set_add (s : list string) (x : string) : list string :=
  if set_has s x then s else s ++ [x].

Definition set_delete (s : list string) (x : string) : list string :=
  filter (fun y => negb (String.eqb y x)) s.

(** [new Set(urls)] *)
Definition set_of (urls : list string) : list string :=
  fold_left set_add urls [].

(** The variables of [scrapeMany] that change while it runs. *)
Record Crawl : Type := {
  queue : list string;
  processed : list string;
  discoveredCount : nat;
  succeededCount : nat;
  failedCount : nat;
  currentIndex : nat
}.

(** One turn of the loop of [addUrls]. *)
Definition addUrl (st : Crawl) (url : string) : Crawl :=
  if set_has (processed st) url || set_has (queue st) url then st
  else
    {| queue := set_add (queue st) url;
       processed := processed st;
       discoveredCount := S (discoveredCount st);
       succeededCount := succeededCount st;
       failedCount := failedCount st;
       currentIndex := currentIndex st |}.

(** [addUrls(newUrls)], a single string being the list of one. *)
Definition addUrls (newUrls : list string) (st : Crawl) : Crawl :=
  fold_left addUrl newUrls st.

Definition createStats (initialCount : nat) (st : Crawl) : ScrapeManyStats :=
  {| stats_initial := initialCount;
     stats_discovered := discoveredCount st;
     stats_processed := succeededCount st + failedCount st;
     stats_remaining := List.length (queue st);
     stats_succeeded := succeededCount st;
     stats_failed := failedCount st |}.

(** [succeededCount++] *)
Definition count_success (st : Crawl) : Crawl :=
  {| queue := queue st; processed := processed st;
     discoveredCount := discoveredCount st;
     succeededCount := S (succeededCount st);
     failedCount := failedCount st;
     currentIndex := currentIndex st |}.

(** [failedCount++] *)
Definition count_failure (st : Crawl) : Crawl :=
  {| queue := queue st; processed := processed st;
     discoveredCount := discoveredCount st;
     succeededCount := succeededCount st;
     failedCount := S (failedCount st);
     currentIndex := currentIndex st |}.

(** [processed.add(url); queue.delete(url); currentIndex++] *)
Definition mark_processed (url : string) (st : Crawl) : Crawl :=
  {| queue := set_delete (queue st) url;
     processed := set_add (processed st) url;
     discoveredCount := discoveredCount st;
     succeededCount := succeededCount st;
     failedCount := failedCount st;
     currentIndex := S (currentIndex st) |}.

(** [queue.delete(url)] *)
Definition dequeue (url : string) (st : Crawl) : Crawl :=
  {| queue := set_delete (queue st) url;
     processed := processed st;
     discoveredCount := discoveredCount st;
     succeededCount := succeededCount st;
     failedCount := failedCount st;
     currentIndex := currentIndex st |}.

(** Run [m] and hand back how it ended, for the [try] statements whose
    clauses share the variables of the crawl. *)
Definition outcome_of {A} (m : M A) : M (Outcome A) :=
  fun w => let (o, w') := m w in (Return o, w').

(** [scrapeManyConfig?.field] *)
Definition many_field {A} (scrapeManyConfig : option ScrapeManyConfig)
    (field : ScrapeManyConfig -> option A) : option A :=
  match scrapeManyConfig with
  | Some c => field c
  | None => None
  end.

(** The call of a handler, up to its [await]: the calls of [addUrls] it
    makes act on the crawl, whether it then resolves or rejects. *)
Definition handle {A} (handler : option (Handler A)) (ctx : A) (st : Crawl)
  : M (Crawl * Reply unit) :=
  match handler with
  | Some f => h <- consult (f ctx) ;; ret (addUrls (adds h) st, settles h)
  | None => ret (st, Resolved tt)
  end.

Section Batch.

Variable defaults : Defaults.
Variable scrapeConfig : ScrapeConfig.
Variable scrapeManyConfig : option ScrapeManyConfig.
Variable initialCount : nat.

(** The [catch] clause: [await onError?.(...); failedCount++]. *)
Definition on_scrape_error (url : string) (index : nat)
    (stats : ScrapeManyStats) (error : Thrown) (st : Crawl) : M Crawl :=
  hr <- handle (many_field scrapeManyConfig onError)
          {| ec_error := error; ec_url := url; ec_index := index;
             ec_stats := stats |} st ;;
  await (snd hr) ;;
  ret (count_failure (fst hr)).

(** The body of the loop for a [url] to scrape, from [createStats()] to the
    end of the [try] statement.  The inner [try ... finally] runs the
    cleanup of a browser result after [onSuccess], however it settles; what
    the cleanup throws, or else what [onSuccess] rejects with, goes to the
    [catch] clause. *)
Definition visit (url : string) (st : Crawl) : M Crawl :=
  let stats := createStats initialCount st in
  let index := currentIndex st in
  scraped <- outcome_of (scrape defaults url scrapeConfig) ;;
  match scraped with
  | Return result =>
      hr <- handle (many_field scrapeManyConfig onSuccess)
              {| sc_result := result; sc_url := url; sc_index := index;
                 sc_stats := stats |} st ;;
      cleaned <- outcome_of
                   match result with
                   | ResultBrowser r => cleanup r
                   | _ => ret tt
                   end ;;
      match cleaned, snd hr with
      | Throw error, _ => on_scrape_error url index stats error (fst hr)
      | Return _, Rejected r =>
          on_scrape_error url index stats (thrown_of r) (fst hr)
      | Return _, Resolved _ => ret (count_success (fst hr))
      end
  | Throw error => on_scrape_error url index stats error st
  end.

(** [while (queue.size > 0)]: [fuel] bounds the number of iterations, and
    [None] is returned when it runs out. *)
Fixpoint crawl (fuel : nat) (st : Crawl) : M (option Crawl) :=
  match queue st with
  | [] => ret (Some st)
  | url :: _ =>
      match fuel with
      | O => ret None
      | S fuel' =>
          if String.eqb url "" then crawl fuel' st
          else if set_has (processed st) url then
            crawl fuel' (dequeue url st)
          else
            st1 <- visit url st ;;
            let st2 := mark_processed url st1 in
            match many_field scrapeManyConfig delays, queue st2 with
            | Some d, _ :: _ => randomSleep (delay_min d) (delay_max d)
            | _, _ => ret tt
            end ;;
            crawl fuel' st2
      end
  end.

End Batch.

(** The crawl at the start of [scrapeMany]. *)
Definition crawl_start (urls : list string) : Crawl :=
  {| queue := set_of urls; processed := [];
     discoveredCount := 0; succeededCount := 0; failedCount := 0;
     currentIndex := 0 |}.

Definition scrapeMany (defaults : Defaults) (fuel : nat)
    (urls : list string) (scrapeConfig : ScrapeConfig)
    (scrapeManyConfig : option ScrapeManyConfig)
  : M (option ScrapeManyResult) :=
  final <- crawl defaults scrapeConfig scrapeManyConfig (List.length urls)
             fuel (crawl_start urls) ;;
  ret (option_map
         (fun st =>
            {| total := succeededCount st + failedCount st;
               succeeded := succeededCount st;
               failed := failedCount st |})
         final).

(* ===================================================================== *)
(** ** The schedule of the retries *)
(* ===================================================================== *)



(* ===================================================================== *)
(** ** What a run ends with *)
(* ===================================================================== *)

(** An error that the execution of a strategy may end with: any but the two
    errors of [scrape] itself. *)
Definition strategy_error (e : Thrown) : Prop :=
  e <> Error allStrategiesFailed /\ e <> Error noStrategiesProvided.

(** What [m] returns satisfies [R] in the world it returns in, and what it
    throws is a [strategy_error]. *)
Definition yields {A} (R : A -> World -> Prop) (m : M A) : Prop :=
  forall w,
    match m w with
    | (Return a, w') => R a w'
    | (Throw e, _) => strategy_error e
    end.

(** The result [r], returned in the world [w], is one of the strategy [s]:
    it has the tag of the mechanism; a fetch result has a 2xx status and the
    body of its response as [html]; a browser result has a 2xx status and a
    cleanup that closes a context open in [w]; a custom result has a
    payload that is neither [null] nor [undefined]. *)
Definition result_of (s : ScrapeStrategy) (r : ScrapeResult) (w : World)
  : Prop :=
  result_mechanism r = mechanism s /\
  match r with
  | ResultFetch f =>
      outside_2xx (status (f_response f)) = false /\
      f_html f = body (f_response f)
  | ResultBrowser b =>
      outside_2xx (pw_status (b_response b)) = false /\
      exists c, cleanup b = close c /\ is_open c w = true
  | ResultCustom c => nullish (c_response c) = false
  end.

(* ===================================================================== *)
(** ** The state of a crawl *)
(* ===================================================================== *)

(** What holds of the crawl of [urls] whenever the loop of [scrapeMany]
    tests its condition. *)
Definition crawl_invariant (urls : list string) (st : Crawl) : Prop :=
  NoDup (queue st) /\
  NoDup (processed st) /\
  (forall u, In u (queue st) -> ~ In u (processed st)) /\
  ~ In "" (processed st) /\
  List.length (processed st) = (succeededCount st + failedCount st)%nat /\
  currentIndex st = List.length (processed st) /\
  (List.length (set_of urls) + discoveredCount st
     = List.length (processed st) + List.length (queue st))%nat /\
  (forall u, In u urls -> In u (queue st) \/ In u (processed st)).

(** Neither handler ever calls [addUrls]. *)
Definition adds_nothing (scrapeManyConfig : option ScrapeManyConfig) : Prop :=
  (forall f ctx t,
     many_field scrapeManyConfig onSuccess = Some f -> adds (f ctx t) = []) /\
  (forall f ctx t,
     many_field scrapeManyConfig onError = Some f -> adds (f ctx t) = []).

(** Further sample environments and configurations. *)
Module More.

(** No browser can be launched. *)
Definition no_browser : Env :=
  {| math_random := math_random Sample.calm;
     global_fetch := global_fetch Sample.calm;
     launch := fun _ => Rejected (RejectWith (JsString "no browser"));
     newContext := newContext Sample.calm;
     newPage := newPage Sample.calm;
     goto := goto Sample.calm;
     action := action Sample.calm |}.


Definition fetching : ScrapeConfig :=
  Sample.config_of Sample.no_options None [Sample.via fetch].

Definition browsing : ScrapeConfig :=
  Sample.config_of Sample.no_options None [Sample.via browser].

(** A crawl that follows one link from every page but the linked one, and
    waits between the pages. *)
Definition following : ScrapeManyConfig :=
  {| onSuccess :=
       Some (fun ctx _ =>
               {| adds := if String.eqb (sc_url ctx) "https://example.com/c"
                          then []
                          else ["https://example.com/c"];
                  settles := Resolved tt |});
     onError := None;
     delays := Some {| delay_min := 100; delay_max := 300 |} |}.

(** An [onSuccess] handler that rejects. *)
Definition rejecting : ScrapeManyConfig :=
  {| onSuccess :=
       Some (fun _ _ =>
               {| adds := [];
                  settles := Rejected (RejectWith (JsString "no")) |});
     onError := None;
     delays := None |}.

End More.

(* ===================================================================== *)
(** * Properties *)
(* ===================================================================== *)

Local Open Scope nat_scope.

(** ** The backoff calculator *)



(** The values the specification lists. *)
Example calculateRetryDelay_samples :
  (calculateRetryDelay 2 1000 "exponential" == 4000)%Q /\
  (calculateRetryDelay 2 1000 "linear" == 3000)%Q /\
  (calculateRetryDelay 5 1000 "constant" == 1000)%Q /\
  (calculateRetryDelay (-1) 1000 "exponential" == 500)%Q /\
  (calculateRetryDelay 3 500 "invalid" == 4000)%Q.
Proof. repeat split. Qed.

(** ** The pool selector *)

Lemma floor_scaled_lt (r : UnitInterval) (n : nat) :
  (0 < n)%nat -> (floor_scaled r n < n)%nat.
Proof.
  intros Hn. unfold floor_scaled.
  pose proof (below_one r) as Hr. apply N.ltb_lt in Hr.
  assert (H : (num r * N.of_nat n / N.pos (den r) < N.of_nat n)%N).
  { apply N.Div0.div_lt_upper_bound. apply N.mul_lt_mono_pos_r; lia. }
  lia.
Qed.

Lemma floor_scaled_one (r : UnitInterval) : floor_scaled r 1 = 0%nat.
Proof.
  pose proof (floor_scaled_lt r (n := 1)). lia.
Qed.

(** C9. Over an absent or an empty collection [getRandomFrom] yields
    [undefined] (and draws nothing); over a singleton it yields the element;
    over any non-empty collection it yields one of its members. *)
Theorem getRandomFrom_member :
  forall (T : Type) (items : option (list T)) (w : World),
    (items = None \/ items = Some [] ->
     getRandomFrom items w = (Return None, w)) /\
    (forall x, items = Some [x] ->
     fst (getRandomFrom items w) = Return (Some x)) /\
    (forall l, items = Some l -> l <> [] ->
     exists x, fst (getRandomFrom items w) = Return (Some x) /\ In x l).
Proof.
  intros T items w. split; [|split].
  - intros [-> | ->]; reflexivity.
  - intros x ->. cbn. now rewrite floor_scaled_one.
  - intros l -> Hl. destruct l as [|a l]; [congruence|].
    pose proof (floor_scaled_lt (math_random (env w) (tick w))
                  (n := List.length (a :: l))) as Hlt.
    destruct (nth_error (a :: l)
                (floor_scaled (math_random (env w) (tick w))
                   (List.length (a :: l)))) as [x|] eqn:Hnth.
    + exists x. split.
      * cbn in *. now rewrite Hnth.
      * eapply nth_error_In; eassumption.
    + apply nth_error_None in Hnth. cbn in *. lia.
Qed.

Lemma getRandomFrom_member_witness :
  getRandomFrom (@None (list string)) (Sample.start Sample.calm)
    = (Return None, Sample.start Sample.calm) /\
  fst (getRandomFrom (Some ["only-item"]) (Sample.start Sample.calm))
    = Return (Some "only-item") /\
  exists x,
    fst (getRandomFrom (Some ["a"; "b"; "c"]) (Sample.start Sample.calm))
      = Return (Some x) /\ In x ["a"; "b"; "c"].
Proof.
  split; [|split].
  - apply (getRandomFrom_member (@None (list string))). now left.
  - now apply (getRandomFrom_member (Some ["only-item"])).
  - apply (getRandomFrom_member (Some ["a"; "b"; "c"])
             (Sample.start Sample.calm)); [reflexivity | discriminate].
Defined.

(** ** Worlds and primitive steps *)

Lemma after_nothing (w : World) : after 0 [] w = w.
Proof.
  destruct w. unfold after. cbn. now rewrite Nat.add_0_r, app_nil_r.
Qed.

Lemma after_after (k1 k2 : nat) (e1 e2 : list Event) (w : World) :
  after k2 e2 (after k1 e1 w) = after (k1 + k2) (e1 ++ e2) w.
Proof.
  unfold after. cbn. now rewrite Nat.add_assoc, app_assoc.
Qed.

Lemma emit_after (ev : Event) (w : World) :
  emit ev w = (Return tt, after 0 [ev] w).
Proof.
  unfold emit, after. now rewrite Nat.add_0_r.
Qed.

Lemma notify_after (hooks' : option ScrapeHooks) (hook : ScrapeHooks -> bool)
    (ev : Event) (w : World) :
  notify hooks' hook ev w
    = (Return tt, after 0 (if registered hooks' hook then [ev] else []) w).
Proof.
  unfold notify, registered, when.
  destruct hooks' as [h|]; [destruct (hook h)|];
    cbn; now rewrite ?emit_after, ?after_nothing.
Qed.

Lemma external_after {A} (ev : Event) (f : Env -> nat -> Reply A)
    (w : World) :
  external ev f w = (settled (f (env w) (tick w)), after 1 [ev] w).
Proof.
  unfold external, bind, ask, consult, await, emit, after. cbn.
  rewrite Nat.add_1_r. now destruct (f (env w) (tick w)).
Qed.


(** ** The retry wrapper *)

Section RetryFacts.

Variable defaults : Defaults.
Variable rc : RetryConfig.
Variable hooks' : option ScrapeHooks.
Variable n : Z.

Let codes := retriable_codes defaults rc.


Lemma on_failure_run (attempt : Z) (e : Thrown) (w : World) :
  on_failure defaults rc hooks' n attempt e w
    = if aborts_retrying codes e then (Throw e, w)
      else (Return tt, after 0 (retry_pause defaults rc hooks' n attempt e) w).
Proof.
  unfold on_failure, retry_pause, codes, retriable_codes, bind, when, sleep.
  cbv zeta.
  destruct (aborts_retrying _ e); [reflexivity|]. cbn.
  destruct (attempt <? n)%Z.
  - rewrite notify_after, emit_after, after_after. reflexivity.
  - cbn. now rewrite after_nothing.
Qed.




Lemma last_cons_default {A} (a d : A) (l : list A) :
  last (a :: l) d = last l a.
Proof.
  revert a d. induction l as [|b l IH]; intros a d; [reflexivity|].
  change (last (a :: b :: l) d) with (last (b :: l) d).
  now rewrite !IH.
Qed.



End RetryFacts.








(** ** What a computation may record *)

Section Frame.

Variable P : Event -> bool.

Lemma emits_ret {A} (a : A) : emits P (ret a).
Proof. intros w. exists []. cbn. now rewrite app_nil_r. Qed.

Lemma emits_throw {A} (e : Thrown) : emits P (@throw A e).
Proof. intros w. exists []. cbn. now rewrite app_nil_r. Qed.

Lemma emits_bind {A B} (m : M A) (k : A -> M B) :
  emits P m -> (forall a, emits P (k a)) -> emits P (bind m k).
Proof.
  intros Hm Hk w. unfold bind.
  destruct (Hm w) as (e1 & H1 & P1).
  destruct (m w) as [[a|e] w1]; cbn in H1.
  - destruct (Hk a w1) as (e2 & H2 & P2).
    exists (e1 ++ e2). rewrite H2, H1, app_assoc, forallb_app, P1, P2. auto.
  - exists e1. auto.
Qed.


Lemma emits_emit (ev : Event) : P ev = true -> emits P (emit ev).
Proof. intros H w. exists [ev]. cbn. now rewrite H. Qed.

Lemma emits_silent {A} (m : M A) :
  (forall w, trace (snd (m w)) = trace w) -> emits P m.
Proof. intros H w. exists []. now rewrite H, app_nil_r. Qed.

Lemma emits_consult {A} (f : nat -> A) : emits P (consult f).
Proof. now apply emits_silent. Qed.

Lemma emits_ask {A} (f : Env -> nat -> A) : emits P (ask f).
Proof. now apply emits_silent. Qed.

Lemma emits_await {A} (r : Reply A) : emits P (await r).
Proof. destruct r; [apply emits_ret | apply emits_throw]. Qed.

Lemma emits_when (b : bool) (m : M unit) : emits P m -> emits P (when b m).
Proof. destruct b; [auto | intros _; apply emits_ret]. Qed.

Lemma emits_notify (hooks' : option ScrapeHooks) (hook : ScrapeHooks -> bool)
    (ev : Event) :
  P ev = true -> emits P (notify hooks' hook ev).
Proof.
  intros H. destruct hooks' as [h|]; cbn.
  - now apply emits_when, emits_emit.
  - apply emits_ret.
Qed.

Lemma emits_call {A B} (f : Callback A B) (a : A) : emits P (call f a).
Proof.
  apply emits_bind; [apply emits_consult | intros r; apply emits_await].
Qed.

Lemma emits_external {A} (ev : Event) (f : Env -> nat -> Reply A) :
  P ev = true -> emits P (external ev f).
Proof.
  intros H. apply emits_bind; [now apply emits_emit | intros _].
  apply emits_bind; [apply emits_ask | intros r; apply emits_await].
Qed.

Lemma emits_getRandomFrom {T} (items : option (list T)) :
  emits P (getRandomFrom items).
Proof.
  destruct items as [l|]; cbn; [|apply emits_ret].
  destruct (Nat.eqb (List.length l) 0); [apply emits_ret|].
  apply emits_bind; [apply emits_ask | intros r; apply emits_ret].
Qed.

End Frame.

Create HintDb frame.

#[local] Hint Resolve emits_ret emits_throw emits_consult emits_ask
  emits_await emits_call emits_getRandomFrom : frame.
#[local] Hint Extern 1 (emits _ (emit _)) =>
  apply emits_emit; reflexivity : frame.
#[local] Hint Extern 1 (emits _ (external _ _)) =>
  apply emits_external; reflexivity : frame.
#[local] Hint Extern 1 (emits _ (notify _ _ _)) =>
  apply emits_notify; reflexivity : frame.
#[local] Hint Extern 1 (emits _ (sleep _)) =>
  apply emits_emit; reflexivity : frame.
#[local] Hint Extern 1 (emits _ (close _)) =>
  intros ?w; eexists [_]; split; reflexivity : frame.
#[local] Hint Extern 1 (emits _ (now)) =>
  apply emits_silent; reflexivity : frame.
#[local] Hint Extern 1 (emits _ (cached _)) =>
  apply emits_silent; reflexivity : frame.
#[local] Hint Extern 1 (emits _ (cache _)) =>
  apply emits_silent; reflexivity : frame.
#[local] Hint Extern 1 (emits _ (register_context _)) =>
  apply emits_silent; reflexivity : frame.









(** ** The cascade *)




Section CascadeFacts.

Variable defaults : Defaults.
Variable url : string.
Variable config : ScrapeConfig.
Variable all : list ScrapeStrategy.

Lemma cascade_success (i : nat) (s : ScrapeStrategy)
    (rest : list ScrapeStrategy) (w w1 : World) (r : ScrapeResult) :
  executeStrategy defaults url config s w = (Return r, w1) ->
  cascade defaults url config all i (s :: rest) w = (Return r, w1).
Proof.
  intros H. cbn. unfold try_catch. now rewrite H.
Qed.

Lemma cascade_failure (i : nat) (s : ScrapeStrategy)
    (rest : list ScrapeStrategy) (w w1 : World) (e : Thrown) :
  executeStrategy defaults url config s w = (Throw e, w1) ->
  cascade defaults url config all i (s :: rest) w
    = if Nat.eqb i (List.length all - 1)
      then (Throw e,
            after 0 (strategy_failed (hooks config) e s i (List.length all)
                     ++ all_failed (hooks config) all e) w1)
      else cascade defaults url config all (S i) rest
             (after 0 (strategy_failed (hooks config) e s i (List.length all))
                w1).
Proof.
  intros H. cbn [cascade]. unfold try_catch. rewrite H.
  unfold bind at 1. rewrite notify_after.
  fold (strategy_failed (hooks config) e s i (List.length all)).
  destruct (Nat.eqb i (List.length all - 1)).
  - unfold bind. rewrite notify_after, after_after. reflexivity.
  - reflexivity.
Qed.





End CascadeFacts.

Lemma scrape_cascade (defaults : Defaults) (url : string)
    (config : ScrapeConfig) (ss : list ScrapeStrategy) :
  strategies config = Some ss -> ss <> [] ->
  scrape defaults url config = cascade defaults url config ss 0 ss.
Proof.
  intros H Hne. unfold scrape. rewrite H.
  destruct ss; [congruence | reflexivity].
Qed.





(** ** The executors *)

Lemma validate_run (config : ScrapeConfig) (ctx : ValidateResponseContext)
    (w : World) :
  validate config ctx w
    = match option_field config validateResponse with
      | Some check =>
          (match check ctx (tick w) with
           | Resolved true => Return tt
           | Resolved false => Throw (Error responseValidationFailed)
           | Rejected r => Throw (thrown_of r)
           end,
           after 1 [EvValidate ctx] w)
      | None => (Return tt, w)
      end.
Proof.
  unfold validate. destruct (option_field config validateResponse) as [check|];
    [|reflexivity].
  unfold bind, call, consult, await, emit, after. cbn.
  rewrite Nat.add_1_r.
  destruct (check ctx (tick w)) as [[|]|r]; reflexivity.
Qed.

Lemma executeCustomMechanism_run (url : string) (config : ScrapeConfig)
    (o : RequestOptions) (w : World) :
  executeCustomMechanism url config o w
    = match custom_fn config with
      | Some f =>
          let w1 := after 1 [EvCustomFn url o] w in
          match f (url, o) (tick w) with
          | Resolved v =>
              if nullish v then (Throw (Error customFetchNoResponse), w1)
              else
                match validate config (ValidateCustom v) w1 with
                | (Return _, w2) => (Return {| c_response := v |}, w2)
                | (Throw e, w2) => (Throw e, w2)
                end
          | Rejected r => (Throw (thrown_of r), w1)
          end
      | None => (Throw (Error customFetchNotProvided), w)
      end.
Proof.
  unfold executeCustomMechanism.
  destruct (custom_fn config) as [f|]; [|reflexivity].
  unfold bind, call, consult, await, emit, after. cbn.
  rewrite Nat.add_1_r.
  destruct (f (url, o) (tick w)) as [v|r]; [|reflexivity]. cbn.
  destruct (nullish v); [reflexivity|].
  destruct (validate config (ValidateCustom v) _) as [[[]|e] w2]; reflexivity.
Qed.

Lemma thrown_of_foreign (r : Rejection) (k : LocaleKey) :
  thrown_of r <> Error k.
Proof. destruct r; discriminate. Qed.

Lemma nullish_spec (v : JsValue) :
  nullish v = true <-> v = JsNull \/ v = JsUndefined.
Proof.
  destruct v; cbn; split; intros H; auto; try discriminate;
    destruct H; discriminate.
Qed.

(** C8. [executeCustomMechanism] fails with the "no response" error exactly
    when the retrieval function is configured and resolves with [null] or
    [undefined].  Any other value it resolves with is the payload of the
    result, unless the validator, when there is one, decides otherwise (it
    refuses, or throws): so [false], [0] and the empty string are returned
    as they are when no validator is configured. *)
Theorem executeCustomMechanism_no_response :
  forall (url : string) (config : ScrapeConfig) (o : RequestOptions)
         (w : World),
    (fst (executeCustomMechanism url config o w)
       = Throw (Error customFetchNoResponse) <->
     exists f v,
       custom_fn config = Some f /\
       f (url, o) (tick w) = Resolved v /\
       (v = JsNull \/ v = JsUndefined)) /\
    (forall f v,
       custom_fn config = Some f ->
       f (url, o) (tick w) = Resolved v ->
       v <> JsNull -> v <> JsUndefined ->
       let w1 := after 1 [EvCustomFn url o] w in
       executeCustomMechanism url config o w
         = match option_field config validateResponse with
           | Some check =>
               (match check (ValidateCustom v) (tick w1) with
                | Resolved true => Return {| c_response := v |}
                | Resolved false => Throw (Error responseValidationFailed)
                | Rejected r => Throw (thrown_of r)
                end,
                after 1 [EvValidate (ValidateCustom v)] w1)
           | None => (Return {| c_response := v |}, w1)
           end) /\
    (forall f v,
       custom_fn config = Some f ->
       f (url, o) (tick w) = Resolved v ->
       In v [JsBoolean false; JsNumber 0; JsString ""] ->
       option_field config validateResponse = None ->
       truthy v = false /\
       executeCustomMechanism url config o w
         = (Return {| c_response := v |}, after 1 [EvCustomFn url o] w)).
Proof.
  intros url config o w.
  assert (Hvalid : forall f v,
    custom_fn config = Some f -> f (url, o) (tick w) = Resolved v ->
    nullish v = false ->
    let w1 := after 1 [EvCustomFn url o] w in
    executeCustomMechanism url config o w
      = match option_field config validateResponse with
        | Some check =>
            (match check (ValidateCustom v) (tick w1) with
             | Resolved true => Return {| c_response := v |}
             | Resolved false => Throw (Error responseValidationFailed)
             | Rejected r => Throw (thrown_of r)
             end,
             after 1 [EvValidate (ValidateCustom v)] w1)
        | None => (Return {| c_response := v |}, w1)
        end).
  { intros f v Hf Hv Hn w1. rewrite executeCustomMechanism_run, Hf, Hv.
    cbv zeta. rewrite Hn, validate_run. fold w1.
    destruct (option_field config validateResponse) as [check|];
      [|reflexivity].
    destruct (check (ValidateCustom v) (tick w1)) as [[|]|r]; reflexivity. }
  split; [|split].
  - split.
    + rewrite executeCustomMechanism_run.
      destruct (custom_fn config) as [f|]; [|discriminate].
      cbv zeta. destruct (f (url, o) (tick w)) as [v|r] eqn:Hv.
      * destruct (nullish v) eqn:Hn.
        -- intros _. exists f, v. repeat split; [exact Hv|].
           now apply nullish_spec.
        -- rewrite validate_run.
           destruct (option_field config validateResponse) as [check|];
             [|discriminate].
           destruct (check _ _) as [[|]|r]; cbn; try discriminate.
           intros H. injection H as H. now apply thrown_of_foreign in H.
      * cbn. intros H. injection H as H. now apply thrown_of_foreign in H.
    + intros (f & v & Hf & Hv & Hnull).
      apply nullish_spec in Hnull.
      now rewrite executeCustomMechanism_run, Hf, Hv; cbv zeta; rewrite Hnull.
  - intros f v Hf Hv Hnn Hnu. apply (Hvalid f v Hf Hv).
    destruct (nullish v) eqn:Hn; [|reflexivity].
    apply nullish_spec in Hn as [-> | ->]; congruence.
  - intros f v Hf Hv Hin Hnone.
    assert (Hn : nullish v = false /\ truthy v = false).
    { cbn in Hin. destruct Hin as [<- | [<- | [<- | []]]]; split; reflexivity. }
    destruct Hn as [Hn Ht]. split; [exact Ht|].
    rewrite (Hvalid f v Hf Hv Hn). now rewrite Hnone.
Qed.

Lemma executeCustomMechanism_no_response_witness :
  fst (executeCustomMechanism "https://example.com"
         (Sample.config_of Sample.no_options (Some (Sample.answering JsNull))
            [Sample.via custom])
         Sample.request (Sample.start Sample.calm))
    = Throw (Error customFetchNoResponse) /\
  truthy (JsNumber 0) = false /\
  executeCustomMechanism "https://example.com"
    (Sample.config_of Sample.no_options
       (Some (Sample.answering (JsNumber 0))) [Sample.via custom])
    Sample.request (Sample.start Sample.calm)
    = (Return {| c_response := JsNumber 0 |},
       after 1 [EvCustomFn "https://example.com" Sample.request]
         (Sample.start Sample.calm)).
Proof.
  split.
  - apply (executeCustomMechanism_no_response "https://example.com"
             (Sample.config_of Sample.no_options
                (Some (Sample.answering JsNull)) [Sample.via custom])
             Sample.request (Sample.start Sample.calm)).
    exists (fun _ _ => Resolved JsNull), JsNull.
    repeat split. now left.
  - apply (proj2 (proj2 (executeCustomMechanism_no_response
             "https://example.com"
             (Sample.config_of Sample.no_options
                (Some (Sample.answering (JsNumber 0))) [Sample.via custom])
             Sample.request (Sample.start Sample.calm))))
      with (f := fun _ _ => Resolved (JsNumber 0)).
    + reflexivity.
    + reflexivity.
    + cbn. auto.
    + reflexivity.
Defined.

Lemma executeFetchMechanism_run (url : string) (config : ScrapeConfig)
    (o : RequestOptions) (w : World) :
  executeFetchMechanism url config o w
    = let w1 := after 1 [EvFetch url (fetchOptions_of o)] w in
      match global_fetch (env w) (tick w) with
      | Resolved (Some response) =>
          match validate config (ValidateFetch response) w1 with
          | (Return _, w2) =>
              (Return {| f_response := response; f_html := body response |},
               w2)
          | (Throw e, w2) => (Throw e, w2)
          end
      | Resolved None => (Throw (Error noResponseReceived), w1)
      | Rejected r => (Throw (thrown_of r), w1)
      end.
Proof.
  unfold executeFetchMechanism. cbv zeta. unfold bind at 1.
  rewrite external_after.
  destruct (global_fetch (env w) (tick w)) as [[response|]|r];
    reflexivity.
Qed.

Lemma executeMechanism_run (defaults : Defaults) (url : string)
    (config : ScrapeConfig) (s : ScrapeStrategy) (o : RequestOptions)
    (w : World) :
  executeMechanism defaults url config s o w
    = let w0 := after 0 [EvExecuteMechanism (mechanism s)] w in
      match mechanism s with
      | fetch =>
          match executeFetchMechanism url config o w0 with
          | (Return r, w') =>
              let status' := status (f_response r) in
              (if outside_2xx status'
               then Throw (HttpError (http_error_message status') status')
               else Return (ResultFetch r), w')
          | (Throw e, w') => (Throw e, w')
          end
      | browser =>
          match executeBrowserMechanism defaults url config o w0 with
          | (Return r, w') =>
              let status' := pw_status (b_response r) in
              (if outside_2xx status'
               then Throw (HttpError (http_error_message status') status')
               else Return (ResultBrowser r), w')
          | (Throw e, w') => (Throw e, w')
          end
      | custom =>
          match executeCustomMechanism url config o w0 with
          | (Return r, w') => (Return (ResultCustom r), w')
          | (Throw e, w') => (Throw e, w')
          end
      end.
Proof.
  unfold executeMechanism. unfold bind at 1. rewrite emit_after.
  cbv zeta. unfold bind at 1.
  destruct (mechanism s); unfold bind at 1.
  - destruct (executeFetchMechanism _ _ _ _) as [[r|e] w']; [|reflexivity].
    cbn. now destruct (outside_2xx _).
  - destruct (executeBrowserMechanism _ _ _ _ _) as [[r|e] w']; [|reflexivity].
    cbn. now destruct (outside_2xx _).
  - now destruct (executeCustomMechanism _ _ _ _) as [[r|e] w'].
Qed.




(** ** The browser executor and its context *)

Lemma close_closes (c : nat) (w : World) : is_open c (snd (close c w)) = false.
Proof.
  unfold is_open, close. cbn.
  induction (open_contexts w) as [|c' l IH]; [reflexivity|]. cbn.
  destruct (Nat.eqb_spec c' c) as [->|Hne]; cbn; [exact IH|].
  rewrite IH. destruct (Nat.eqb_spec c c'); [congruence | reflexivity].
Qed.

Lemma createPage_run (c : nat) (config : BrowserConfig) (o : RequestOptions)
    (w : World) :
  createPage c config o w
    = match newPage (env w) (tick w) with
      | Resolved _ =>
          (Return c, after 1 (EvNewPage c :: page_setup c config o) w)
      | Rejected r => (Throw (thrown_of r), after 1 [EvNewPage c] w)
      end.
Proof.
  unfold createPage, page_setup. unfold bind at 1. rewrite external_after.
  destruct (newPage (env w) (tick w)) as [[]|r]; [|reflexivity].
  cbn [settled]. unfold bind.
  destruct (headers o) as [h|];
    destruct (resources config) as [[|r rs]|];
    rewrite ?emit_after; cbn [ret]; rewrite ?emit_after, ?after_after;
    reflexivity.
Qed.

Lemma navigate_run (url : string) (config : ScrapeConfig)
    (o : RequestOptions) (c : nat) (w : World) :
  navigate url config o c w
    = match newPage (env w) (tick w) with
      | Resolved _ =>
          let w2 :=
            after 2
              (EvNewPage c :: page_setup c (browserConfig_of config) o
               ++ [EvGoto c url (waitUntil (browserConfig_of config))
                     (timeout o)])
              w in
          match goto (env w) (S (tick w)) with
          | Resolved (Some response) =>
              match validate config (ValidateBrowser response) w2 with
              | (Return _, w3) =>
                  (Return {| b_page := c; b_response := response;
                             cleanup := close c |}, w3)
              | (Throw e, w3) => (Throw e, w3)
              end
          | Resolved None => (Throw (Error noResponseReceived), w2)
          | Rejected r => (Throw (thrown_of r), w2)
          end
      | Rejected r => (Throw (thrown_of r), after 1 [EvNewPage c] w)
      end.
Proof.
  unfold navigate. cbv zeta. unfold bind at 1. rewrite createPage_run.
  destruct (newPage (env w) (tick w)) as [[]|r]; [|reflexivity].
  unfold bind at 1. rewrite external_after, after_after.
  cbn [env tick after]. rewrite Nat.add_1_r.
  destruct (goto (env w) (S (tick w))) as [[response|]|r]; reflexivity.
Qed.

(** What the [try] block leaves behind: it closes nothing, and a result it
    returns closes the context on cleanup. *)
Lemma navigate_leaves (url : string) (config : ScrapeConfig)
    (o : RequestOptions) (c : nat) (w : World) :
  exists k evs,
    snd (navigate url config o c w) = after k evs w /\
    filter is_close evs = [] /\
    forall r, fst (navigate url config o c w) = Return r ->
              cleanup r = close c.
Proof.
  rewrite navigate_run.
  destruct (newPage (env w) (tick w)) as [[]|r].
  2:{ exists 1, [EvNewPage c]. repeat split. discriminate. }
  cbv zeta.
  set (evs := EvNewPage c :: page_setup c (browserConfig_of config) o ++ _).
  assert (Hevs : filter is_close evs = []).
  { subst evs. cbn. rewrite filter_app. unfold page_setup.
    destruct (headers o); destruct (resources (browserConfig_of config))
      as [[|]|]; reflexivity. }
  destruct (goto (env w) (S (tick w))) as [[response|]|r].
  - rewrite validate_run.
    destruct (option_field config validateResponse) as [check|].
    + exists 3, (evs ++ [EvValidate (ValidateBrowser response)]).
      destruct (check _ _) as [[|]|r]; cbn [fst snd];
        rewrite after_after, filter_app, Hevs;
        repeat split; try discriminate.
      intros r H. now injection H as <-.
    + exists 2, evs. repeat split; [exact Hevs|].
      intros r H. now injection H as <-.
  - exists 2, evs. repeat split; [exact Hevs | discriminate].
  - exists 2, evs. repeat split; [exact Hevs | discriminate].
Qed.

(** C6. Once the browsing context is open, whatever [executeBrowserMechanism]
    fails with, the context is closed when the error leaves the executor:
    closing it is the last thing recorded.  When the executor returns, the
    context is still open and nothing has closed it; the result carries
    [cleanup], which closes this context in whatever world it is run. *)
Theorem executeBrowserMechanism_context :
  forall (defaults : Defaults) (url : string) (config : ScrapeConfig)
         (o : RequestOptions) (w w0 w1 : World) (b : BrowserEngine)
         (context : nat),
    getBrowser (engine_of defaults config) w = (Return b, w0) ->
    createContext b o w0 = (Return context, w1) ->
    is_open context w1 = true /\
    forall out w',
      executeBrowserMechanism defaults url config o w = (out, w') ->
      match out with
      | Throw _ =>
          is_open context w' = false /\
          exists evs, trace w' = trace w1 ++ evs ++ [EvCloseContext context]
      | Return r =>
          is_open context w' = true /\
          (exists evs,
             trace w' = trace w1 ++ evs /\ filter is_close evs = []) /\
          cleanup r = close context /\
          forall w'', is_open context (snd (cleanup r w'')) = false
      end.
Proof.
  intros defaults url config o w w0 w1 b context Hb Hc.
  assert (Hopen : is_open context w1 = true).
  { unfold createContext, bind, now in Hc. rewrite external_after in Hc.
    destruct (newContext (env w0) (tick w0)); cbn in Hc; [|discriminate].
    injection Hc as <- <-. unfold is_open. cbn. now rewrite Nat.eqb_refl. }
  split; [exact Hopen|].
  intros out w'. unfold executeBrowserMechanism. cbv zeta.
  unfold bind at 1. rewrite Hb. unfold bind at 1. rewrite Hc.
  unfold try_catch.
  destruct (navigate_leaves url config o context w1)
    as (k & evs & Hw & Hevs & Hclean).
  destruct (navigate url config o context w1) as [[r|e] w2];
    cbn [fst snd] in *; subst w2.
  - intros H. injection H as <- <-. repeat split.
    + exact Hopen.
    + now exists evs.
    + now apply Hclean.
    + intros w''. rewrite (Hclean r eq_refl). apply close_closes.
  - unfold bind.
    destruct (close context (after k evs w1)) as [[[]|e'] w3] eqn:Hclose.
    + intros H. injection H as <- <-. split.
      * change w3 with (snd (Return tt, w3)). rewrite <- Hclose.
        apply close_closes.
      * exists evs. unfold close in Hclose. injection Hclose as <-.
        cbn. now rewrite app_assoc.
    + discriminate.
Qed.

Lemma executeBrowserMechanism_context_witness :
  let w' :=
    snd (executeBrowserMechanism Sample.defaults "https://example.com"
           (Sample.config_of Sample.no_options None [Sample.via browser])
           Sample.request (Sample.start Sample.blank)) in
  is_open 1 w' = false /\
  exists evs,
    trace w'
      = [EvLaunch chromium;
         EvNewContext 1
           {| co_proxy := None; co_userAgent := None; co_viewport := None |}]
        ++ evs ++ [EvCloseContext 1].
Proof.
  intros w'.
  edestruct (@executeBrowserMechanism_context Sample.defaults
               "https://example.com"
               (Sample.config_of Sample.no_options None [Sample.via browser])
               Sample.request (Sample.start Sample.blank))
    as [_ H]; [vm_compute; reflexivity | vm_compute; reflexivity |].
  apply (H (Throw (Error noResponseReceived)) w').
  vm_compute. reflexivity.
Defined.

(** The status check of [executeMechanism] comes after the browser executor
    has returned: when it throws, the context the executor opened is still
    open. *)
Remark executeMechanism_status_keeps_context_open :
  let out :=
    executeMechanism Sample.defaults "https://example.com"
      (Sample.config_of Sample.no_options None [Sample.via browser])
      (Sample.via browser) Sample.request
      (Sample.start Sample.missing_page) in
  fst out = Throw (HttpError "HTTP error 404" 404) /\
  is_open 1 (snd out) = true /\
  filter is_close (trace (snd out)) = [].
Proof. repeat split. Qed.

(** ** A custom strategy without a retrieval function *)

Lemma getRandomFrom_run {T} (items : option (list T)) (w : World) :
  exists k x, getRandomFrom items w = (Return x, after k [] w).
Proof.
  destruct items as [l|]; cbn.
  - destruct (Nat.eqb (List.length l) 0).
    + exists 0, None. now rewrite after_nothing.
    + exists 1. eexists. unfold bind, ask, consult, ret, after. cbn.
      now rewrite Nat.add_1_r, app_nil_r.
  - exists 0, None. now rewrite after_nothing.
Qed.

Lemma executeStrategy_run (defaults : Defaults) (url : string)
    (config : ScrapeConfig) (s : ScrapeStrategy) (w : World) :
  exists k o,
    executeStrategy defaults url config s w
      = withRetry defaults (executeMechanism defaults url config s o)
          (option_field config retries) (hooks config)
          (after k [EvExecuteStrategy s] w).
Proof.
  unfold executeStrategy. unfold bind at 1. rewrite emit_after.
  set (w0 := after 0 [EvExecuteStrategy s] w).
  assert (Hp : exists k x,
    match useProxy s with
    | Some true => getRandomFrom (option_field config proxies)
    | _ => ret None
    end w0 = (Return x, after k [] w0)).
  { destruct (useProxy s) as [[|]|]; try apply getRandomFrom_run;
      exists 0, None; now rewrite after_nothing. }
  destruct Hp as (k1 & proxy' & Hp). unfold bind at 1. rewrite Hp.
  destruct (getRandomFrom_run (option_field config userAgents)
              (after k1 [] w0)) as (k2 & userAgent' & Hu).
  unfold bind at 1. rewrite Hu.
  destruct (getRandomFrom_run (option_field config viewports)
              (after k2 [] (after k1 [] w0))) as (k3 & viewport' & Hv).
  unfold bind at 1. rewrite Hv.
  subst w0. rewrite !after_after, !app_nil_r.
  eexists. eexists. reflexivity.
Qed.







(* ===================================================================== *)
(** * More of the engine *)
(* ===================================================================== *)

(** ** The growth of the backoff *)






(** ** A negative retry count *)



(** ** The cache of browsers *)

Lemma engine_eqb_refl (e : BrowserEngine) : engine_eqb e e = true.
Proof. now destruct e. Qed.

(** X3. [getBrowser] launches an engine at most once: when the engine is in
    the cache nothing happens at all; after a call that returned, the next
    call for the same engine is answered from the cache; a launch that fails
    caches nothing; and a call never removes an engine from the cache. *)
Theorem getBrowser_launches_once :
  forall (e : BrowserEngine) (w : World),
    let out := fst (getBrowser e w) in
    let w' := snd (getBrowser e w) in
    (existsb (engine_eqb e) (browsers w) = true ->
     getBrowser e w = (Return e, w)) /\
    (forall b, out = Return b ->
     b = e /\ getBrowser e w' = (Return e, w')) /\
    (forall err, out = Throw err -> browsers w' = browsers w) /\
    (forall e', existsb (engine_eqb e') (browsers w) = true ->
                existsb (engine_eqb e') (browsers w') = true).
Proof.
  intros e w. cbv zeta. unfold getBrowser, bind, cached.
  destruct (existsb (engine_eqb e) (browsers w)) eqn:Hc; cbn [fst snd].
  - split; [reflexivity|]. split; [|split].
    + intros b0 H. injection H as <-. split; [reflexivity|].
      unfold ret. cbn [snd]. now rewrite Hc.
    + discriminate.
    + auto.
  - split; [discriminate|]. rewrite external_after.
    destruct (launch (env w) (tick w)) as [[]|r]; cbn.
    + split; [|split].
      * intros b0 H. injection H as <-. split; [reflexivity|].
        unfold ret, cache. cbn. now rewrite engine_eqb_refl.
      * discriminate.
      * intros e' ->. apply orb_true_r.
    + split; [|split]; [discriminate | reflexivity | auto].
Qed.

Lemma getBrowser_launches_once_witness :
  getBrowser chromium
    (snd (getBrowser chromium (Sample.start Sample.calm)))
    = (Return chromium, snd (getBrowser chromium (Sample.start Sample.calm))).
Proof.
  apply (proj1 (proj2 (getBrowser_launches_once chromium
                         (Sample.start Sample.calm))) chromium).
  reflexivity.
Defined.

(** ** The browser executor before the context is there *)

(** X4. When the browser cannot be launched, or the context cannot be
    created, [executeBrowserMechanism] throws that very error, no context
    is open that was not before, and nothing is closed: the [catch] clause
    covers only what follows the creation of the context. *)
Theorem executeBrowserMechanism_unopened :
  forall (defaults : Defaults) (url : string) (config : ScrapeConfig)
         (o : RequestOptions) (w : World),
    (forall e w0,
       getBrowser (engine_of defaults config) w = (Throw e, w0) ->
       executeBrowserMechanism defaults url config o w = (Throw e, w0) /\
       open_contexts w0 = open_contexts w /\
       exists evs, trace w0 = trace w ++ evs /\ filter is_close evs = []) /\
    (forall b w0 e w1,
       getBrowser (engine_of defaults config) w = (Return b, w0) ->
       createContext b o w0 = (Throw e, w1) ->
       executeBrowserMechanism defaults url config o w = (Throw e, w1) /\
       open_contexts w1 = open_contexts w /\
       exists evs, trace w1 = trace w ++ evs /\ filter is_close evs = []).
Proof.
  intros defaults url config o w.
  assert (Hget : forall out w0,
    getBrowser (engine_of defaults config) w = (out, w0) ->
    open_contexts w0 = open_contexts w /\
    exists evs, trace w0 = trace w ++ evs /\ filter is_close evs = []).
  { intros out w0. unfold getBrowser, bind, cached.
    destruct (existsb _ (browsers w)).
    - intros H. injection H as _ <-. split; [reflexivity|].
      exists []. now rewrite app_nil_r.
    - rewrite external_after.
      destruct (launch (env w) (tick w)) as [[]|r]; cbn;
        intros H; injection H as _ <-; (split; [reflexivity|]);
        now exists [EvLaunch (engine_of defaults config)]. }
  split.
  - intros e w0 Hb. split; [|now apply (Hget (Throw e))].
    unfold executeBrowserMechanism. cbv zeta. unfold bind at 1.
    now rewrite Hb.
  - intros b w0 e w1 Hb Hc.
    destruct (Hget _ _ Hb) as (Ho & evs & Ht & Hcl).
    split; [|split].
    + unfold executeBrowserMechanism. cbv zeta. unfold bind at 1.
      rewrite Hb. unfold bind at 1. now rewrite Hc.
    + unfold createContext, bind, now in Hc. rewrite external_after in Hc.
      destruct (newContext (env w0) (tick w0)); cbn in Hc; [discriminate|].
      injection Hc as _ <-. exact Ho.
    + unfold createContext, bind, now in Hc. rewrite external_after in Hc.
      destruct (newContext (env w0) (tick w0)); cbn in Hc; [discriminate|].
      injection Hc as _ <-. cbn [trace after]. rewrite Ht.
      eexists. rewrite <- app_assoc. split; [reflexivity|].
      rewrite filter_app, Hcl. reflexivity.
Qed.

Lemma executeBrowserMechanism_unopened_witness :
  exists w0,
    executeBrowserMechanism Sample.defaults "https://example.com"
      (Sample.config_of Sample.no_options None [Sample.via browser])
      Sample.request (Sample.start More.no_browser)
      = (Throw (ThrownValue (JsString "no browser")), w0) /\
    open_contexts w0 = open_contexts (Sample.start More.no_browser) /\
    exists evs,
      trace w0 = trace (Sample.start More.no_browser) ++ evs /\
      filter is_close evs = [].
Proof.
  eexists.
  eapply (proj1 (@executeBrowserMechanism_unopened Sample.defaults
            "https://example.com"
            (Sample.config_of Sample.no_options None [Sample.via browser])
            Sample.request (Sample.start More.no_browser))).
  vm_compute. reflexivity.
Defined.

(** ** The fetch executor *)



(** ** The status check and the browsing context *)

Lemma createContext_opens (b : BrowserEngine) (o : RequestOptions)
    (w w1 : World) (c : nat) :
  createContext b o w = (Return c, w1) -> is_open c w1 = true.
Proof.
  unfold createContext, bind, now. rewrite external_after.
  destruct (newContext (env w) (tick w)); cbn; [|discriminate].
  intros H. injection H as <- <-. unfold is_open. cbn.
  now rewrite Nat.eqb_refl.
Qed.

(** A result of the browser executor: its context is open, and its cleanup
    closes that context. *)
Lemma executeBrowserMechanism_result (defaults : Defaults) (url : string)
    (config : ScrapeConfig) (o : RequestOptions) (w w' : World)
    (r : ScrapeResultBrowser) :
  executeBrowserMechanism defaults url config o w = (Return r, w') ->
  exists c, cleanup r = close c /\ is_open c w' = true.
Proof.
  unfold executeBrowserMechanism. cbv zeta. unfold bind at 1.
  destruct (getBrowser (engine_of defaults config) w) as [[b|e] w0];
    [|discriminate].
  unfold bind at 1.
  destruct (createContext b o w0) as [[c|e] w1] eqn:Hc; [|discriminate].
  apply createContext_opens in Hc. unfold try_catch.
  destruct (navigate_leaves url config o c w1) as (k & evs & Hw & _ & Hclean).
  destruct (navigate url config o c w1) as [[r'|e] w2];
    cbn [fst snd] in *; subst w2.
  - intros H. injection H as <- <-. exists c. split; [now apply Hclean|].
    exact Hc.
  - unfold bind. destruct (close c (after k evs w1)) as [[[]|e'] w3];
      discriminate.
Qed.

(** X6. When the browser executor has returned a result and its status is
    outside 200..299, [executeMechanism] throws the [HttpError] in the world
    the executor returned in, and the result is dropped with its [cleanup]:
    the context the executor opened is still open when the error leaves. *)
Theorem executeMechanism_status_leaves_context :
  forall (defaults : Defaults) (url : string) (config : ScrapeConfig)
         (s : ScrapeStrategy) (o : RequestOptions) (w w' : World)
         (r : ScrapeResultBrowser),
    mechanism s = browser ->
    executeBrowserMechanism defaults url config o
      (after 0 [EvExecuteMechanism browser] w) = (Return r, w') ->
    outside_2xx (pw_status (b_response r)) = true ->
    executeMechanism defaults url config s o w
      = (Throw (HttpError (http_error_message (pw_status (b_response r)))
                  (pw_status (b_response r))), w') /\
    exists c, cleanup r = close c /\ is_open c w' = true.
Proof.
  intros defaults url config s o w w' r Hm Hr Hs. split.
  - rewrite executeMechanism_run, Hm. cbv zeta. now rewrite Hr, Hs.
  - eapply executeBrowserMechanism_result; eassumption.
Qed.

Lemma executeMechanism_status_leaves_context_witness :
  exists w' r c,
    executeMechanism Sample.defaults "https://example.com"
      (Sample.config_of Sample.no_options None [Sample.via browser])
      (Sample.via browser) Sample.request
      (Sample.start Sample.missing_page)
      = (Throw (HttpError (http_error_message (pw_status (b_response r)))
                  (pw_status (b_response r))), w') /\
    cleanup r = close c /\ is_open c w' = true.
Proof.
  edestruct (@executeMechanism_status_leaves_context Sample.defaults
               "https://example.com"
               (Sample.config_of Sample.no_options None [Sample.via browser])
               (Sample.via browser) Sample.request
               (Sample.start Sample.missing_page))
    as (H & c & Hc & Ho);
    [reflexivity | vm_compute; reflexivity | reflexivity |].
  eexists. eexists. exists c. split; [exact H|]. split; [exact Hc | exact Ho].
Defined.

(** ** What the engine returns and throws *)

Lemma strategy_error_thrown_of (r : Rejection) : strategy_error (thrown_of r).
Proof. split; apply thrown_of_foreign. Qed.

Create HintDb outcome.

#[local] Hint Resolve strategy_error_thrown_of : outcome.
#[local] Hint Extern 1 (strategy_error _) => split; discriminate : outcome.

Lemma yields_validate (config : ScrapeConfig) (ctx : ValidateResponseContext) :
  yields (fun _ _ => True) (validate config ctx).
Proof.
  intros w. rewrite validate_run.
  destruct (option_field config validateResponse) as [check|]; [|exact I].
  destruct (check ctx (tick w)) as [[|]|r]; auto with outcome.
Qed.

Lemma yields_executeFetchMechanism (url : string) (config : ScrapeConfig)
    (o : RequestOptions) :
  yields (fun r _ => f_html r = body (f_response r))
    (executeFetchMechanism url config o).
Proof.
  intros w. rewrite executeFetchMechanism_run. cbv zeta.
  destruct (global_fetch (env w) (tick w)) as [[response|]|r];
    auto with outcome.
  pose proof (yields_validate config (ValidateFetch response)
                (after 1 [EvFetch url (fetchOptions_of o)] w)) as H.
  now destruct (validate config (ValidateFetch response) _) as [[[]|e] w2].
Qed.

Lemma yields_executeCustomMechanism (url : string) (config : ScrapeConfig)
    (o : RequestOptions) :
  yields (fun r _ => nullish (c_response r) = false)
    (executeCustomMechanism url config o).
Proof.
  intros w. rewrite executeCustomMechanism_run.
  destruct (custom_fn config) as [f|]; [|auto with outcome]. cbv zeta.
  destruct (f (url, o) (tick w)) as [v|r]; [|auto with outcome].
  destruct (nullish v) eqn:Hn; [auto with outcome|].
  pose proof (yields_validate config (ValidateCustom v)
                (after 1 [EvCustomFn url o] w)) as H.
  now destruct (validate config (ValidateCustom v) _) as [[[]|e] w2].
Qed.

Lemma yields_navigate (url : string) (config : ScrapeConfig)
    (o : RequestOptions) (c : nat) :
  yields (fun _ _ => True) (navigate url config o c).
Proof.
  intros w. rewrite navigate_run.
  destruct (newPage (env w) (tick w)) as [[]|r]; [|auto with outcome].
  cbv zeta.
  destruct (goto (env w) (S (tick w))) as [[response|]|r];
    auto with outcome.
  match goal with
  | |- context [validate ?cfg ?ctx ?w2] =>
      pose proof (yields_validate cfg ctx w2) as H;
      now destruct (validate cfg ctx w2) as [[[]|e] w3]
  end.
Qed.

Lemma yields_executeBrowserMechanism (defaults : Defaults) (url : string)
    (config : ScrapeConfig) (o : RequestOptions) :
  yields (fun r w => exists c, cleanup r = close c /\ is_open c w = true)
    (executeBrowserMechanism defaults url config o).
Proof.
  intros w.
  destruct (executeBrowserMechanism defaults url config o w)
    as [[r|e] w'] eqn:H.
  - eapply executeBrowserMechanism_result; eassumption.
  - revert H. unfold executeBrowserMechanism. cbv zeta. unfold bind at 1.
    unfold getBrowser at 1. unfold bind at 1, cached.
    assert (Hrest : forall b w0,
      (context <- createContext b o ;;
       try_catch (navigate url config o context)
         (fun error => close context ;; throw error)) w0 = (Throw e, w') ->
      strategy_error e).
    { intros b w0. unfold bind at 1, createContext. unfold bind at 1, now.
      unfold bind at 1. rewrite external_after.
      destruct (newContext (env w0) (tick w0)) as [[]|r]; cbn [settled].
      - unfold bind at 1, register_context. cbn [ret]. unfold try_catch.
        match goal with
        | |- context [navigate url config o ?c ?w1] =>
            pose proof (yields_navigate url config o c w1) as Hn;
            destruct (navigate url config o c w1) as [[r'|e'] w2]
        end; [discriminate|].
        unfold bind, close, throw. intros H. injection H as <- _. exact Hn.
      - intros H. injection H as <- _. auto with outcome. }
    destruct (existsb _ (browsers w)).
    + apply Hrest.
    + unfold bind at 1. rewrite external_after.
      destruct (launch (env w) (tick w)) as [[]|r]; cbn [settled].
      * unfold bind at 1, cache. apply Hrest.
      * intros H. injection H as <- _. auto with outcome.
Qed.

Lemma yields_executeMechanism (defaults : Defaults) (url : string)
    (config : ScrapeConfig) (s : ScrapeStrategy) (o : RequestOptions) :
  yields (result_of s) (executeMechanism defaults url config s o).
Proof.
  intros w. rewrite executeMechanism_run. cbv zeta. unfold result_of.
  set (w0 := after 0 [EvExecuteMechanism (mechanism s)] w).
  destruct (mechanism s).
  - pose proof (yields_executeFetchMechanism url config o w0) as H.
    destruct (executeFetchMechanism url config o w0) as [[r|e] w'];
      [|exact H].
    destruct (outside_2xx _) eqn:Hs; [auto with outcome|]. cbn. auto.
  - pose proof (yields_executeBrowserMechanism defaults url config o w0) as H.
    destruct (executeBrowserMechanism defaults url config o w0)
      as [[r|e] w']; [|exact H].
    destruct (outside_2xx _) eqn:Hs; [auto with outcome|]. cbn. auto.
  - pose proof (yields_executeCustomMechanism url config o w0) as H.
    destruct (executeCustomMechanism url config o w0) as [[r|e] w'];
      [|exact H].
    cbn. auto.
Qed.

Lemma yields_retry_loop (defaults : Defaults) {T} (R : T -> World -> Prop)
    (fn : M T) (rc : RetryConfig) (hooks' : option ScrapeHooks) (n : Z) :
  yields R fn ->
  forall iterations attempt lastError,
    strategy_error lastError ->
    yields R (retry_loop defaults fn rc hooks' n iterations attempt lastError).
Proof.
  intros Hfn.
  induction iterations as [|iterations IH]; intros attempt lastError Hl w.
  - cbn. unfold bind. now rewrite notify_after.
  - cbn [retry_loop]. unfold try_catch. specialize (Hfn w).
    destruct (fn w) as [[a|e] w1]; [exact Hfn|].
    unfold bind at 1. rewrite on_failure_run.
    destruct (aborts_retrying _ e); [exact Hfn|]. now apply IH.
Qed.

Lemma yields_withRetry (defaults : Defaults) {T} (R : T -> World -> Prop)
    (fn : M T) (retryConfig : option RetryConfig)
    (hooks' : option ScrapeHooks) :
  yields R fn -> yields R (withRetry defaults fn retryConfig hooks').
Proof.
  intros Hfn. unfold withRetry.
  destruct retryConfig as [rc|]; [|exact Hfn].
  destruct (count rc) as [n|]; [|exact Hfn].
  destruct (n =? 0)%Z; [exact Hfn|].
  apply yields_retry_loop; auto with outcome.
Qed.

Lemma yields_executeStrategy (defaults : Defaults) (url : string)
    (config : ScrapeConfig) (s : ScrapeStrategy) :
  yields (result_of s) (executeStrategy defaults url config s).
Proof.
  intros w.
  destruct (executeStrategy_run defaults url config s w) as (k & o & ->).
  apply yields_withRetry, yields_executeMechanism.
Qed.

Lemma last_nonempty {A} (l : list A) (d d' : A) :
  l <> [] -> last l d = last l d'.
Proof.
  destruct l as [|a l]; [congruence|]. intros _.
  now rewrite !last_cons_default.
Qed.

Lemma fail_in_turn_errors (defaults : Defaults) (url : string)
    (config : ScrapeConfig) (ss : list ScrapeStrategy) :
  forall (total i : nat) (w w' : World) (errors : list Thrown),
    fail_in_turn defaults url config total i ss w errors w' ->
    Forall strategy_error errors /\ List.length errors = List.length ss.
Proof.
  induction ss as [|s ss IH]; intros total i w w' errors H.
  - inversion H; subst. auto.
  - inversion H as [|i' s' ss' w0 e w1 errors' w0' He Hrest]; subst.
    destruct (IH _ _ _ _ _ Hrest) as [IH1 IH2]. split.
    + constructor; [|exact IH1].
      pose proof (yields_executeStrategy defaults url config s w) as Hy.
      now rewrite He in Hy.
    + cbn. now rewrite IH2.
Qed.

Section CascadeOutcome.

Variable defaults : Defaults.
Variable url : string.
Variable config : ScrapeConfig.
Variable all : list ScrapeStrategy.

(** The cascade ends in one of two ways: a strategy succeeds after those
    before it have failed, or all that is left fails. *)
Lemma cascade_outcome (rest : list ScrapeStrategy) :
  forall (i : nat) (w : World),
    i + List.length rest = List.length all ->
    rest <> [] ->
    (exists before s later errors w1 r w2,
       rest = before ++ s :: later /\
       fail_in_turn defaults url config (List.length all) i before w
         errors w1 /\
       executeStrategy defaults url config s w1 = (Return r, w2) /\
       cascade defaults url config all i rest w = (Return r, w2)) \/
    (exists errors w1,
       fail_in_turn defaults url config (List.length all) i rest w
         errors w1 /\
       cascade defaults url config all i rest w
         = (Throw (last errors (Error allStrategiesFailed)),
            after 0
              (all_failed (hooks config) all
                 (last errors (Error allStrategiesFailed)))
              w1)).
Proof.
  induction rest as [|s rest IH]; intros i w Hlen Hne; [congruence|].
  destruct (executeStrategy defaults url config s w) as [[r|e] w1] eqn:He.
  - left. exists [], s, rest, [], w, r, w1. repeat split.
    + constructor.
    + exact He.
    + now apply cascade_success.
  - rewrite (@cascade_failure defaults url config all i s rest w w1 e He).
    set (w2 := after 0 (strategy_failed (hooks config) e s i
                          (List.length all)) w1).
    assert (Hnext : forall ss errors w',
      fail_in_turn defaults url config (List.length all) (S i) ss w2
        errors w' ->
      fail_in_turn defaults url config (List.length all) i (s :: ss) w
        (e :: errors) w').
    { intros ss errors w' H. eapply fail_next; [exact He|].
      rewrite notify_after. exact H. }
    destruct rest as [|s' rest]; cbn [List.length] in Hlen.
    + destruct (Nat.eqb_spec i (List.length all - 1)); [|lia].
      right. exists [e], w2. split; [apply Hnext; constructor|].
      subst w2. now rewrite after_after.
    + destruct (Nat.eqb_spec i (List.length all - 1)); [lia|].
      destruct (IH (S i) w2) as
        [(before & s0 & later & errors & w3 & r & w4 & Hr & Hf & Hs & Hc)
        |(errors & w3 & Hf & Hc)];
        [cbn [List.length]; lia | discriminate | |].
      * left. exists (s :: before), s0, later, (e :: errors), w3, r, w4.
        repeat split; [now rewrite Hr | now apply Hnext | exact Hs
                      | exact Hc].
      * right. exists (e :: errors), w3. split; [now apply Hnext|].
        rewrite Hc.
        assert (Hne' : errors <> []).
        { destruct (fail_in_turn_errors Hf) as [_ Hl].
          destruct errors; [discriminate | discriminate]. }
        rewrite last_cons_default.
        now rewrite (last_nonempty e (Error allStrategiesFailed) Hne').
Qed.

End CascadeOutcome.

(** X7. Every result [scrape] returns is the result of one of the
    configured strategies: it has the tag of that strategy's mechanism; a
    fetch result has a 2xx status and carries the body of its response; a
    browser result has a 2xx status and a cleanup that closes a context
    which is open when [scrape] returns; a custom result has a payload that
    is neither [null] nor [undefined]. *)
Theorem scrape_result :
  forall (defaults : Defaults) (url : string) (config : ScrapeConfig)
         (w w' : World) (r : ScrapeResult),
    scrape defaults url config w = (Return r, w') ->
    exists ss s,
      strategies config = Some ss /\ In s ss /\ result_of s r w'.
Proof.
  intros defaults url config w w' r H.
  destruct (strategies config) as [ss|] eqn:Hss;
    [|unfold scrape in H; rewrite Hss in H; discriminate].
  destruct ss as [|s0 ss];
    [unfold scrape in H; rewrite Hss in H; discriminate|].
  rewrite (@scrape_cascade defaults url config _ Hss) in H by discriminate.
  destruct (@cascade_outcome defaults url config (s0 :: ss) (s0 :: ss) 0 w
              eq_refl ltac:(discriminate))
    as [(before & s & later & errors & w1 & r0 & w2 & Hr & _ & Hs & Hc)
       |(errors & w1 & _ & Hc)];
    rewrite Hc in H; [|discriminate].
  injection H as <- <-. exists (s0 :: ss), s.
  split; [reflexivity|]. split.
  - rewrite Hr. apply in_or_app. right. now left.
  - pose proof (yields_executeStrategy defaults url config s w1) as Hy.
    now rewrite Hs in Hy.
Qed.

Lemma scrape_result_witness :
  exists ss s,
    strategies
      (Sample.config_of Sample.no_options None
         [Sample.via custom; Sample.via fetch]) = Some ss /\
    In s ss /\
    result_of s
      (ResultFetch {| f_response := Sample.ok_response;
                      f_html := "<html/>" |})
      (snd (scrape Sample.defaults "https://example.com"
              (Sample.config_of Sample.no_options None
                 [Sample.via custom; Sample.via fetch])
              (Sample.start Sample.calm))).
Proof.
  apply (@scrape_result Sample.defaults "https://example.com"
           (Sample.config_of Sample.no_options None
              [Sample.via custom; Sample.via fetch])
           (Sample.start Sample.calm)).
  vm_compute. reflexivity.
Defined.



(** ** The options of a strategy *)

Lemma getRandomFrom_pick {T} (items : option (list T)) (w : World) :
  exists k x,
    getRandomFrom items w = (Return x, after k [] w) /\
    k <= 1 /\
    (forall y, x = Some y -> exists l, items = Some l /\ In y l) /\
    (forall l, items = Some l -> l <> [] -> x <> None).
Proof.
  destruct items as [l|]; cbn.
  2:{ exists 0, None. rewrite after_nothing.
      repeat split; [lia | discriminate | discriminate]. }
  destruct l as [|a l].
  { exists 0, None. rewrite after_nothing.
    repeat split; [lia | discriminate | congruence]. }
  cbn [List.length Nat.eqb].
  exists 1. eexists. unfold bind, ask, consult, ret, after. cbn [fst snd].
  rewrite Nat.add_1_r, app_nil_r. split; [reflexivity|].
  pose proof (floor_scaled_lt (math_random (env w) (tick w))
                (n := S (List.length l))) as Hlt.
  repeat split.
  - lia.
  - intros y Hy. exists (a :: l). split; [reflexivity|].
    eapply nth_error_In. exact Hy.
  - intros l' _ _ Hn. apply nth_error_None in Hn. cbn [List.length] in Hn.
    lia.
Qed.

(** X9. [executeStrategy] makes the request options once, before the first
    attempt, with at most three draws, and every attempt of the strategy
    runs the mechanism with these same options.  The proxy is set only when
    the strategy has [useProxy], and is then one of the configured proxies,
    never missing when there are some; the user agent and the viewport are
    drawn from their pools likewise; the headers and the timeout are those
    of the configuration. *)
Theorem executeStrategy_options :
  forall (defaults : Defaults) (url : string) (config : ScrapeConfig)
         (s : ScrapeStrategy) (w : World),
    exists k o,
      executeStrategy defaults url config s w
        = withRetry defaults (executeMechanism defaults url config s o)
            (option_field config retries) (hooks config)
            (after k [EvExecuteStrategy s] w) /\
      k <= 3 /\
      (useProxy s <> Some true -> proxy o = None) /\
      (forall p, proxy o = Some p ->
         exists l, option_field config proxies = Some l /\ In p l) /\
      (forall l, useProxy s = Some true ->
         option_field config proxies = Some l -> l <> [] ->
         proxy o <> None) /\
      (forall u, userAgent o = Some u ->
         exists l, option_field config userAgents = Some l /\ In u l) /\
      (forall l, option_field config userAgents = Some l -> l <> [] ->
         userAgent o <> None) /\
      (forall v, viewport o = Some v ->
         exists l, option_field config viewports = Some l /\ In v l) /\
      (forall l, option_field config viewports = Some l -> l <> [] ->
         viewport o <> None) /\
      headers o = option_field config o_headers /\
      timeout o = option_field config o_timeout.
Proof.
  intros defaults url config s w.
  unfold executeStrategy. unfold bind at 1. rewrite emit_after.
  set (w0 := after 0 [EvExecuteStrategy s] w).
  assert (Hp : exists k x,
    match useProxy s with
    | Some true => getRandomFrom (option_field config proxies)
    | _ => ret None
    end w0 = (Return x, after k [] w0) /\
    k <= 1 /\
    (useProxy s <> Some true -> x = None) /\
    (forall y, x = Some y ->
       exists l, option_field config proxies = Some l /\ In y l) /\
    (forall l, useProxy s = Some true ->
       option_field config proxies = Some l -> l <> [] -> x <> None)).
  { destruct (useProxy s) as [[|]|].
    - destruct (getRandomFrom_pick (option_field config proxies) w0)
        as (k & x & H1 & H2 & H3 & H4).
      exists k, x.
      repeat split; [exact H1 | exact H2 | congruence | exact H3|].
      intros l _. apply H4.
    - exists 0, None. rewrite after_nothing.
      repeat split; auto; discriminate.
    - exists 0, None. rewrite after_nothing.
      repeat split; auto; discriminate. }
  destruct Hp as (k1 & proxy' & Hp & Hk1 & Hp1 & Hp2 & Hp3).
  unfold bind at 1. rewrite Hp.
  destruct (getRandomFrom_pick (option_field config userAgents)
              (after k1 [] w0)) as (k2 & userAgent' & Hu & Hk2 & Hu1 & Hu2).
  unfold bind at 1. rewrite Hu.
  destruct (getRandomFrom_pick (option_field config viewports)
              (after k2 [] (after k1 [] w0)))
    as (k3 & viewport' & Hv & Hk3 & Hv1 & Hv2).
  unfold bind at 1. rewrite Hv.
  subst w0. rewrite !after_after, !app_nil_r.
  eexists. eexists. split; [reflexivity|].
  cbn [proxy userAgent viewport headers timeout].
  repeat split; auto. lia.
Qed.

Lemma executeStrategy_options_witness :
  exists k o,
    executeStrategy Sample.defaults "https://example.com"
      (Sample.config_of Sample.no_options None [Sample.via fetch])
      (Sample.via fetch) (Sample.start Sample.calm)
      = withRetry Sample.defaults
          (executeMechanism Sample.defaults "https://example.com"
             (Sample.config_of Sample.no_options None [Sample.via fetch])
             (Sample.via fetch) o)
          None (Some Sample.all_hooks)
          (after k [EvExecuteStrategy (Sample.via fetch)]
             (Sample.start Sample.calm)) /\
    proxy o = None.
Proof.
  destruct (executeStrategy_options Sample.defaults "https://example.com"
              (Sample.config_of Sample.no_options None [Sample.via fetch])
              (Sample.via fetch) (Sample.start Sample.calm))
    as (k & o & H & _ & Hp & _).
  exists k, o. split; [exact H|]. apply Hp. discriminate.
Defined.

(** ** The schedule of the retries *)






(** ** Random pauses *)





(** ** Sets of URLs *)

Lemma set_has_In (s : list string) (x : string) :
  set_has s x = true <-> In x s.
Proof.
  unfold set_has. rewrite existsb_exists. split.
  - intros (y & Hy & E). apply String.eqb_eq in E. now subst.
  - intros H. exists x. split; [exact H | apply String.eqb_refl].
Qed.

Lemma set_has_not_In (s : list string) (x : string) :
  set_has s x = false <-> ~ In x s.
Proof.
  rewrite <- set_has_In. destruct (set_has s x); split; congruence.
Qed.

Lemma set_delete_In (s : list string) (x y : string) :
  In y (set_delete s x) <-> In y s /\ y <> x.
Proof.
  unfold set_delete. rewrite filter_In, negb_true_iff.
  now rewrite String.eqb_neq.
Qed.

Lemma set_delete_NoDup (s : list string) (x : string) :
  NoDup s -> NoDup (set_delete s x).
Proof. apply NoDup_filter. Qed.

Lemma set_delete_absent (s : list string) (x : string) :
  ~ In x s -> set_delete s x = s.
Proof.
  induction s as [|y s IH]; [reflexivity|]. intros H. cbn.
  destruct (String.eqb_spec y x) as [->|Hne].
  - exfalso. apply H. now left.
  - cbn. f_equal. apply IH. intros Hin. apply H. now right.
Qed.

Lemma set_delete_head (s : list string) (x : string) :
  NoDup (x :: s) -> set_delete (x :: s) x = s.
Proof.
  intros H. inversion H; subst. cbn. rewrite String.eqb_refl. cbn.
  now apply set_delete_absent.
Qed.

Lemma set_add_fold_NoDup (l acc : list string) :
  NoDup acc -> NoDup (fold_left set_add l acc).
Proof.
  revert acc. induction l as [|x l IH]; intros acc H; [exact H|].
  cbn. apply IH. unfold set_add.
  destruct (set_has acc x) eqn:E; [exact H|].
  apply set_has_not_In in E.
  apply NoDup_app; [exact H | repeat constructor; auto |].
  intros a Ha [<- | []]. contradiction.
Qed.

Lemma set_add_fold_In (l acc : list string) (x : string) :
  In x (fold_left set_add l acc) <-> In x acc \/ In x l.
Proof.
  revert acc. induction l as [|y l IH]; intros acc; cbn; [tauto|].
  rewrite IH. unfold set_add.
  destruct (set_has acc y) eqn:E.
  - apply set_has_In in E. split; [tauto|].
    intros [H | [<- | H]]; auto.
  - rewrite in_app_iff. cbn. tauto.
Qed.

(** ** Adding URLs to a crawl *)

Lemma addUrl_effect (st : Crawl) (url : string) :
  (In url (processed st) \/ In url (queue st)) /\ addUrl st url = st \/
  (~ In url (processed st) /\ ~ In url (queue st) /\
   addUrl st url
     = {| queue := queue st ++ [url];
          processed := processed st;
          discoveredCount := S (discoveredCount st);
          succeededCount := succeededCount st;
          failedCount := failedCount st;
          currentIndex := currentIndex st |}).
Proof.
  unfold addUrl, set_add.
  destruct (set_has (processed st) url) eqn:Hp;
    [left; split; [left; now apply set_has_In | reflexivity]|].
  destruct (set_has (queue st) url) eqn:Hq; cbn [orb];
    [left; split; [right; now apply set_has_In | reflexivity]|].
  right. apply set_has_not_In in Hp, Hq. auto.
Qed.

Lemma addUrls_appends (l : list string) :
  forall st : Crawl,
    NoDup (queue st) ->
    exists new,
      addUrls l st
        = {| queue := queue st ++ new;
             processed := processed st;
             discoveredCount := discoveredCount st + List.length new;
             succeededCount := succeededCount st;
             failedCount := failedCount st;
             currentIndex := currentIndex st |} /\
      NoDup (queue st ++ new) /\
      (forall u, In u new <->
         In u l /\ ~ In u (queue st) /\ ~ In u (processed st)).
Proof.
  induction l as [|x l IH]; intros st0 H0.
  - exists []. rewrite app_nil_r, Nat.add_0_r. destruct st0.
    split; [reflexivity|]. split; [exact H0|]. cbn. tauto.
  - unfold addUrls. cbn [fold_left]. fold (addUrls l (addUrl st0 x)).
    destruct (addUrl_effect st0 x) as [[Hin ->] | (Hp & Hq & ->)].
    + destruct (IH st0 H0) as (new & E & Hn & Hu).
      exists new. split; [exact E|]. split; [exact Hn|].
      intros u. rewrite Hu. cbn [In]. split; [tauto|].
      intros ([<- | Hl] & Hq & Hp); tauto.
    + set (st1 := {| queue := queue st0 ++ [x] |}).
      assert (H1 : NoDup (queue st1)).
      { cbn. apply NoDup_app; [exact H0 | repeat constructor; auto|].
        intros a Ha [<- | []]. contradiction. }
      destruct (IH st1 H1) as (new & E & Hn & Hu). cbn in E, Hn, Hu.
      exists (x :: new). rewrite E. cbn [List.length].
      rewrite <- app_assoc, Nat.add_succ_r. cbn [app Nat.add].
      rewrite <- app_assoc in Hn.
      split; [reflexivity|]. split; [exact Hn|].
      intros u. cbn [In]. rewrite Hu, in_app_iff. cbn [In].
      destruct (string_dec x u) as [->|Hne]; tauto.
Qed.



(** ** The loop of [scrapeMany] *)

Lemma handle_effect {A} (handler : option (Handler A)) (ctx : A)
    (st : Crawl) (w : World) :
  exists l s k,
    handle handler ctx st w = (Return (addUrls l st, s), after k [] w) /\
    ((forall f c t, handler = Some f -> adds (f c t) = []) -> l = []) /\
    (handler = None -> s = Resolved tt).
Proof.
  destruct handler as [f|].
  - exists (adds (f ctx (tick w))), (settles (f ctx (tick w))), 1.
    split; [|split; [|discriminate]].
    + unfold handle, bind, consult, ret, after. cbn.
      now rewrite app_nil_r, Nat.add_1_r.
    + intros H. now apply (H f).
  - exists [], (Resolved tt), 0. split; [|split; reflexivity].
    unfold handle, ret. now rewrite after_nothing.
Qed.

Lemma on_scrape_error_effect (scrapeManyConfig : option ScrapeManyConfig)
    (url : string) (index : nat) (stats : ScrapeManyStats) (error : Thrown)
    (st : Crawl) (w : World) :
  exists l k o,
    on_scrape_error scrapeManyConfig url index stats error st w
      = (o, after k [] w) /\
    ((forall f c t, many_field scrapeManyConfig onError = Some f ->
                    adds (f c t) = []) -> l = []) /\
    match o with
    | Return st1 => st1 = count_failure (addUrls l st)
    | Throw _ => many_field scrapeManyConfig onError <> None
    end.
Proof.
  unfold on_scrape_error, bind.
  destruct (handle_effect (many_field scrapeManyConfig onError)
              {| ec_error := error; ec_url := url; ec_index := index;
                 ec_stats := stats |} st w) as (l & s & k & -> & Hl & Hs).
  cbn [fst snd]. destruct s as [[]|r]; cbn.
  - exists l, k, (Return (count_failure (addUrls l st))). auto.
  - exists l, k, (Throw (thrown_of r)). repeat split; [exact Hl|].
    intros H. specialize (Hs H). discriminate.
Qed.

Lemma addUrls_app (l l' : list string) (st : Crawl) :
  addUrls l' (addUrls l st) = addUrls (l ++ l') st.
Proof. unfold addUrls. now rewrite fold_left_app. Qed.

Section Loop.

Variable defaults : Defaults.
Variable scrapeConfig : ScrapeConfig.
Variable scrapeManyConfig : option ScrapeManyConfig.
Variable initialCount : nat.

(** A visit counts the page as succeeded or as failed, after the URLs the
    handlers have added; it throws only what [onError] rejects with. *)
Lemma visit_effect (url : string) (st : Crawl) (w : World) :
  exists l,
    (adds_nothing scrapeManyConfig -> l = []) /\
    match
      fst (visit defaults scrapeConfig scrapeManyConfig initialCount url st w)
    with
    | Return st1 =>
        st1 = count_success (addUrls l st) \/
        st1 = count_failure (addUrls l st)
    | Throw _ => many_field scrapeManyConfig onError <> None
    end.
Proof.
  unfold visit, bind, outcome_of.
  destruct (scrape defaults url scrapeConfig w) as [[r|e] w0].
  - match goal with
    | |- context [handle ?h ?c st w0] =>
        destruct (handle_effect h c st w0) as (l & s & k & -> & Hl & _)
    end.
    cbn [fst snd].
    match goal with
    | |- context [?m (after k [] w0)] =>
        match type of m with
        | M unit => destruct (m (after k [] w0)) as [[[]|e] w2]
        end
    end.
    + destruct s as [[]|rj].
      * exists l. split; [intros [H _]; exact (Hl H)|]. cbn. now left.
      * match goal with
        | |- context [on_scrape_error ?c ?u ?i ?s ?e ?st' w2] =>
            destruct (on_scrape_error_effect c u i s e st' w2)
              as (l' & k' & o & -> & Hl' & Ho)
        end.
        exists (l ++ l'). split.
        { intros [H1 H2]. now rewrite (Hl H1), (Hl' H2). }
        cbn [fst]. destruct o; [|exact Ho]. right.
        now rewrite Ho, addUrls_app.
    + match goal with
      | |- context [on_scrape_error ?c ?u ?i ?s ?e' ?st' w2] =>
          destruct (on_scrape_error_effect c u i s e' st' w2)
            as (l' & k' & o & -> & Hl' & Ho)
      end.
      exists (l ++ l'). split.
      { intros [H1 H2]. now rewrite (Hl H1), (Hl' H2). }
      cbn [fst]. destruct o; [|exact Ho]. right.
      now rewrite Ho, addUrls_app.
  - match goal with
    | |- context [on_scrape_error ?c ?u ?i ?s ?e' ?st' w0] =>
        destruct (on_scrape_error_effect c u i s e' st' w0)
          as (l' & k' & o & -> & Hl' & Ho)
    end.
    exists l'. split; [intros [_ H]; exact (Hl' H)|].
    cbn [fst]. destruct o; [|exact Ho]. now right.
Qed.

Lemma crawl_unfold (fuel : nat) (st : Crawl) :
  crawl defaults scrapeConfig scrapeManyConfig initialCount fuel st
  = match queue st with
    | [] => ret (Some st)
    | url :: _ =>
        match fuel with
        | O => ret None
        | S fuel' =>
            if String.eqb url "" then
              crawl defaults scrapeConfig scrapeManyConfig initialCount
                fuel' st
            else if set_has (processed st) url then
              crawl defaults scrapeConfig scrapeManyConfig initialCount
                fuel' (dequeue url st)
            else
              st1 <- visit defaults scrapeConfig scrapeManyConfig initialCount
                       url st ;;
              let st2 := mark_processed url st1 in
              match many_field scrapeManyConfig delays, queue st2 with
              | Some d, _ :: _ => randomSleep (delay_min d) (delay_max d)
              | _, _ => ret tt
              end ;;
              crawl defaults scrapeConfig scrapeManyConfig initialCount
                fuel' st2
        end
    end.
Proof. destruct fuel; reflexivity. Qed.

(** The pause between two pages always ends. *)
Lemma pause_returns (st2 : Crawl) (w : World) :
  exists w',
    match many_field scrapeManyConfig delays, queue st2 with
    | Some d, _ :: _ => randomSleep (delay_min d) (delay_max d)
    | _, _ => ret tt
    end w = (Return tt, w').
Proof.
  destruct (many_field scrapeManyConfig delays) as [d|];
    [destruct (queue st2)|]; eexists;
    cbv [randomSleep bind ask consult sleep emit ret]; reflexivity.
Qed.


(** One turn of the loop on a URL to scrape keeps the invariant. *)
Lemma crawl_invariant_step (urls : list string) (st st1 : Crawl)
    (url : string) (q l : list string) :
  crawl_invariant urls st ->
  queue st = url :: q ->
  url <> "" ->
  st1 = count_success (addUrls l st) \/ st1 = count_failure (addUrls l st) ->
  crawl_invariant urls (mark_processed url st1) /\
  exists new,
    queue (mark_processed url st1) = q ++ new /\
    processed (mark_processed url st1) = processed st ++ [url] /\
    discoveredCount (mark_processed url st1)
      = discoveredCount st + List.length new /\
    (l = [] -> new = []).
Proof.
  intros (Hq & Hp & Hd & He & Hc & Hi & Hn & Hu) Hqueue Hurl Hst1.
  destruct (@addUrls_appends l st Hq) as (new & E & Hnd & Hnew).
  assert (Hfacts :
    queue st1 = queue st ++ new /\
    processed st1 = processed st /\
    discoveredCount st1 = discoveredCount st + List.length new /\
    succeededCount st1 + failedCount st1
      = S (succeededCount st + failedCount st) /\
    currentIndex st1 = currentIndex st).
  { destruct Hst1 as [-> | ->]; rewrite E; cbn; repeat split; lia. }
  destruct Hfacts as (Fq & Fp & Fd & Fc & Fi).
  assert (Hnp : ~ In url (processed st)).
  { apply Hd. rewrite Hqueue. now left. }
  assert (Eq : queue (mark_processed url st1) = q ++ new).
  { cbn. rewrite Fq, Hqueue. rewrite Hqueue in Hnd.
    apply (@set_delete_head (q ++ new) url Hnd). }
  assert (Ep : processed (mark_processed url st1) = processed st ++ [url]).
  { cbn. rewrite Fp. unfold set_add.
    apply set_has_not_In in Hnp. now rewrite Hnp. }
  rewrite Hqueue in Hnd. cbn [app] in Hnd. inversion Hnd as [|? ? Hnq Hnd'].
  subst. split.
  - unfold crawl_invariant. rewrite Eq, Ep.
    cbn [succeededCount failedCount currentIndex discoveredCount
         mark_processed].
    rewrite Fd, Fc, Fi, !length_app. cbn [List.length].
    rewrite Hqueue in Hn. cbn [List.length] in Hn.
    split; [exact Hnd'|].
    split; [apply NoDup_app; [exact Hp | repeat constructor; auto|];
            intros a Ha [<- | []]; contradiction|].
    split.
    { intros u Hin Hin'. apply in_app_iff in Hin, Hin'.
      destruct Hin' as [Hin' | [<- | []]].
      - destruct Hin as [Hin | Hin].
        + apply (Hd u); [rewrite Hqueue; now right | exact Hin'].
        + apply Hnew in Hin. tauto.
      - apply Hnq. apply in_app_iff. exact Hin. }
    split.
    { intros Hin. apply in_app_iff in Hin.
      destruct Hin as [Hin | [E0 | []]]; [contradiction | congruence]. }
    split; [lia|]. split; [lia|]. split; [lia|].
    intros u Hin. destruct (Hu u Hin) as [Hin' | Hin'].
    + rewrite Hqueue in Hin'. destruct Hin' as [<- | Hin'].
      * right. apply in_app_iff. right. now left.
      * left. apply in_app_iff. now left.
    + right. apply in_app_iff. now left.
  - exists new. split; [exact Eq|]. split; [exact Ep|].
    split; [cbn; exact Fd|].
    intros ->. destruct new as [|u new]; [reflexivity|]. exfalso.
    destruct (proj1 (Hnew u) (or_introl eq_refl)) as ([] & _).
Qed.

Lemma crawl_invariant_start (urls : list string) :
  crawl_invariant urls (crawl_start urls).
Proof.
  unfold crawl_invariant, crawl_start, set_of. cbn.
  split; [apply set_add_fold_NoDup; constructor|].
  split; [constructor|]. split; [auto|]. split; [auto|].
  split; [reflexivity|]. split; [reflexivity|]. split; [lia|].
  intros u Hin. left. apply set_add_fold_In. now right.
Qed.

(** The loop keeps the invariant, and ends with an empty queue. *)
Lemma crawl_preserves (urls : list string) (fuel : nat) :
  forall (st : Crawl) (w : World) (st' : Crawl) (w' : World),
    crawl_invariant urls st ->
    crawl defaults scrapeConfig scrapeManyConfig initialCount fuel st w
      = (Return (Some st'), w') ->
    crawl_invariant urls st' /\ queue st' = [].
Proof.
  induction fuel as [|fuel IH]; intros st w st' w' Hinv H;
    rewrite crawl_unfold in H;
    destruct (queue st) as [|url q] eqn:Hqueue;
    try (injection H as <- <-; now split); try discriminate.
  destruct (String.eqb_spec url "") as [->|Hurl];
    [exact (IH st w st' w' Hinv H)|].
  assert (Hnp : set_has (processed st) url = false).
  { apply set_has_not_In. destruct Hinv as (_ & _ & Hd & _).
    apply Hd. rewrite Hqueue. now left. }
  rewrite Hnp in H. unfold bind in H.
  destruct (visit_effect url st w) as (l & _ & Hv).
  destruct (visit defaults scrapeConfig scrapeManyConfig initialCount url st w)
    as [[st1|e] w1]; [|discriminate].
  cbn [fst] in Hv.
  destruct (@crawl_invariant_step urls st st1 url q l Hinv Hqueue Hurl Hv)
    as [Hinv' _].
  destruct (pause_returns (mark_processed url st1) w1) as [w2 Hp].
  rewrite Hp in H. now apply (IH _ _ _ _ Hinv' H).
Qed.

(** Without discoveries, and with no empty string in the queue, a turn of
    the loop for each queued URL ends the crawl, the URLs being processed in
    the order of the queue. *)
Lemma crawl_no_discovery (urls : list string) (fuel : nat) :
  adds_nothing scrapeManyConfig ->
  forall (st : Crawl) (w : World),
    crawl_invariant urls st ->
    ~ In "" (queue st) ->
    List.length (queue st) <= fuel ->
    match
      fst (crawl defaults scrapeConfig scrapeManyConfig initialCount fuel st w)
    with
    | Return (Some st') =>
        processed st' = processed st ++ queue st /\
        discoveredCount st' = discoveredCount st
    | Return None => False
    | Throw _ => many_field scrapeManyConfig onError <> None
    end.
Proof.
  intros Hquiet.
  induction fuel as [|fuel IH]; intros st w Hinv Hne Hlen;
    rewrite crawl_unfold;
    destruct (queue st) as [|url q] eqn:Hqueue;
    try (cbn; now rewrite app_nil_r); [cbn in Hlen; lia|].
  destruct (String.eqb_spec url "") as [->|Hurl];
    [exfalso; apply Hne; now left|].
  assert (Hnp : set_has (processed st) url = false).
  { apply set_has_not_In. destruct Hinv as (_ & _ & Hd & _).
    apply Hd. rewrite Hqueue. now left. }
  rewrite Hnp. unfold bind.
  destruct (visit_effect url st w) as (l & Hl & Hv).
  destruct (visit defaults scrapeConfig scrapeManyConfig initialCount url st w)
    as [[st1|e] w1]; [|exact Hv].
  cbn [fst] in Hv.
  destruct (@crawl_invariant_step urls st st1 url q l Hinv Hqueue Hurl Hv)
    as (Hinv' & new & Eq & Ep & Ed & Hnew).
  rewrite (Hnew (Hl Hquiet)), app_nil_r in Eq.
  rewrite (Hnew (Hl Hquiet)), Nat.add_0_r in Ed.
  destruct (pause_returns (mark_processed url st1) w1) as [w2 Hp].
  rewrite Hp.
  assert (Hne' : ~ In "" (queue (mark_processed url st1))).
  { rewrite Eq. intros Hin. apply Hne. now right. }
  assert (Hlen' : List.length (queue (mark_processed url st1)) <= fuel).
  { rewrite Eq. cbn in Hlen. lia. }
  specialize (IH (mark_processed url st1) w2 Hinv' Hne' Hlen').
  destruct (fst (crawl defaults scrapeConfig scrapeManyConfig initialCount fuel
                   (mark_processed url st1) w2)) as [[st'|]|e];
    [|exact IH | exact IH].
  rewrite Ep, Eq, Ed, <- app_assoc in IH. exact IH.
Qed.

(** While the empty string heads the queue the loop does nothing else than
    test its condition. *)
Lemma crawl_stuck (fuel : nat) (st : Crawl) (q : list string) (w : World) :
  queue st = "" :: q ->
  crawl defaults scrapeConfig scrapeManyConfig initialCount fuel st w
    = (Return None, w).
Proof.
  intros Hq. induction fuel as [|fuel IH]; rewrite crawl_unfold, Hq;
    [reflexivity | exact IH].
Qed.

End Loop.

Lemma set_add_fold_head (l : list string) :
  forall (x : string) (acc : list string),
    exists t, fold_left set_add l (x :: acc) = x :: t.
Proof.
  induction l as [|y l IH]; intros x acc; [now exists acc|].
  cbn [fold_left]. unfold set_add at 2.
  destruct (set_has (x :: acc) y); [apply IH|]. cbn [app]. apply IH.
Qed.

(** X13. When [scrapeMany] returns, the queue is empty, every URL given has
    been processed, each processed URL once, the empty string is not among
    them, and the total is the number of succeeded and failed pages, which
    is the number of the distinct URLs given and of those discovered. *)
Theorem scrapeMany_accounts :
  forall (defaults : Defaults) (fuel : nat) (urls : list string)
         (scrapeConfig : ScrapeConfig)
         (scrapeManyConfig : option ScrapeManyConfig)
         (w w' : World) (r : ScrapeManyResult),
    scrapeMany defaults fuel urls scrapeConfig scrapeManyConfig w
      = (Return (Some r), w') ->
    exists st',
      crawl defaults scrapeConfig scrapeManyConfig (List.length urls) fuel
        (crawl_start urls) w = (Return (Some st'), w') /\
      queue st' = [] /\
      NoDup (processed st') /\
      (forall u, In u urls -> In u (processed st')) /\
      ~ In "" (processed st') /\
      total r = List.length (processed st') /\
      total r = succeeded r + failed r /\
      total r = List.length (set_of urls) + discoveredCount st'.
Proof.
  intros defaults fuel urls scrapeConfig scrapeManyConfig w w' r H.
  unfold scrapeMany, bind in H.
  destruct (crawl defaults scrapeConfig scrapeManyConfig (List.length urls)
              fuel (crawl_start urls) w) as [[[st'|]|e] w1] eqn:Hc;
    try discriminate.
  cbn in H. injection H as <- <-. exists st'. split; [reflexivity|].
  destruct (@crawl_preserves defaults scrapeConfig scrapeManyConfig
              (List.length urls) urls fuel (crawl_start urls) w st' w1
              (crawl_invariant_start urls) Hc)
    as [(Hq & Hp & Hd & He & Hn & Hi & Hs & Hu) Hempty].
  rewrite Hempty in Hs, Hu. cbn [List.length] in Hs.
  cbn [total succeeded failed].
  split; [exact Hempty|]. split; [exact Hp|].
  split; [intros u Hin; destruct (Hu u Hin) as [[] | Hin']; exact Hin'|].
  split; [exact He|]. split; [lia|]. split; [reflexivity | lia].
Qed.

Lemma scrapeMany_accounts_witness :
  exists st',
    queue st' = [] /\
    processed st' = ["https://example.com/a"; "https://example.com/b";
                     "https://example.com/c"] /\
    discoveredCount st' = 1.
Proof.
  edestruct (@scrapeMany_accounts Sample.defaults 10
               ["https://example.com/a"; "https://example.com/b";
                "https://example.com/a"]
               More.fetching (Some More.following)
               (Sample.start Sample.calm))
    as (st' & Hc & Hq & _); [vm_compute; reflexivity|].
  exists st'. split; [exact Hq|].
  vm_compute in Hc. injection Hc as <-. split; reflexivity.
Defined.

(** X14. With the empty string among the URLs, [scrapeMany] never returns
    a result, however many turns its loop is given; when the empty string is
    the first URL, the loop does nothing at all: no page is scraped, no
    handler called. *)
Theorem scrapeMany_empty_url :
  forall (defaults : Defaults) (urls : list string)
         (scrapeConfig : ScrapeConfig)
         (scrapeManyConfig : option ScrapeManyConfig),
    In "" urls ->
    forall (fuel : nat) (w : World),
      (forall r w',
         scrapeMany defaults fuel urls scrapeConfig scrapeManyConfig w
           <> (Return (Some r), w')) /\
      (forall rest,
         urls = "" :: rest ->
         scrapeMany defaults fuel urls scrapeConfig scrapeManyConfig w
           = (Return None, w)).
Proof.
  intros defaults urls scrapeConfig scrapeManyConfig Hin fuel w. split.
  - intros r w' H. unfold scrapeMany, bind in H.
    destruct (crawl defaults scrapeConfig scrapeManyConfig
                (List.length urls) fuel (crawl_start urls) w)
      as [[[st'|]|e] w1] eqn:Hc; try discriminate.
    destruct (@crawl_preserves defaults scrapeConfig scrapeManyConfig
                (List.length urls) urls fuel (crawl_start urls) w st' w1
                (crawl_invariant_start urls) Hc)
      as [(_ & _ & _ & He & _ & _ & _ & Hu) Hempty].
    destruct (Hu "" Hin) as [Hq | Hp]; [|contradiction].
    now rewrite Hempty in Hq.
  - intros rest ->. unfold scrapeMany, bind.
    destruct (set_add_fold_head rest "" []) as [t Ht].
    now rewrite (@crawl_stuck defaults scrapeConfig scrapeManyConfig
                   (List.length ("" :: rest)) fuel
                   (crawl_start ("" :: rest)) t w Ht).
Qed.

Lemma scrapeMany_empty_url_witness :
  scrapeMany Sample.defaults 1000 [""; "https://example.com/a"]
    More.fetching None (Sample.start Sample.calm)
  = (Return None, Sample.start Sample.calm).
Proof.
  apply (proj2 (@scrapeMany_empty_url Sample.defaults
                  [""; "https://example.com/a"] More.fetching None
                  (or_introl eq_refl) 1000 (Sample.start Sample.calm))
           ["https://example.com/a"]).
  reflexivity.
Defined.

(** X15. When no handler adds a URL and the empty string is not among the
    URLs, a turn of the loop for each distinct URL is enough: [scrapeMany]
    then returns, having processed the distinct URLs in the order of their
    first occurrence, and its total is their number; it throws only if the
    [onError] handler rejects. *)
Theorem scrapeMany_in_order :
  forall (defaults : Defaults) (fuel : nat) (urls : list string)
         (scrapeConfig : ScrapeConfig)
         (scrapeManyConfig : option ScrapeManyConfig) (w : World),
    adds_nothing scrapeManyConfig ->
    ~ In "" urls ->
    List.length (set_of urls) <= fuel ->
    match
      fst (crawl defaults scrapeConfig scrapeManyConfig (List.length urls)
             fuel (crawl_start urls) w),
      fst (scrapeMany defaults fuel urls scrapeConfig scrapeManyConfig w)
    with
    | Return (Some st'), Return (Some r) =>
        processed st' = set_of urls /\
        total r = List.length (set_of urls)
    | Throw e, Throw e' =>
        e = e' /\ many_field scrapeManyConfig onError <> None
    | _, _ => False
    end.
Proof.
  intros defaults fuel urls scrapeConfig scrapeManyConfig w Hquiet Hne Hlen.
  pose proof (@crawl_no_discovery defaults scrapeConfig scrapeManyConfig
                (List.length urls) urls fuel Hquiet (crawl_start urls) w
                (crawl_invariant_start urls)) as H.
  assert (Hne' : ~ In "" (queue (crawl_start urls))).
  { cbn. unfold set_of. rewrite set_add_fold_In. intros [[] | Hin].
    contradiction. }
  specialize (H Hne' Hlen).
  unfold scrapeMany, bind.
  destruct (crawl defaults scrapeConfig scrapeManyConfig (List.length urls)
              fuel (crawl_start urls) w) as [[[st'|]|e] w1] eqn:Hc;
    cbn [fst] in H |- *; [|exact H | split; [reflexivity | exact H]].
  destruct H as [Hp Hd]. cbn in Hp. split; [exact Hp|].
  destruct (@crawl_preserves defaults scrapeConfig scrapeManyConfig
              (List.length urls) urls fuel (crawl_start urls) w st' w1
              (crawl_invariant_start urls) Hc)
    as [(_ & _ & _ & _ & Hn & _) _].
  cbn [total option_map]. rewrite <- Hn, Hp. reflexivity.
Qed.

Lemma scrapeMany_in_order_witness :
  match
    fst (crawl Sample.defaults More.browsing (Some More.rejecting) 3 2
           (crawl_start ["https://example.com/a"; "https://example.com/b";
                         "https://example.com/a"])
           (Sample.start Sample.calm)),
    fst (scrapeMany Sample.defaults 2
           ["https://example.com/a"; "https://example.com/b";
            "https://example.com/a"]
           More.browsing (Some More.rejecting) (Sample.start Sample.calm))
  with
  | Return (Some st'), Return (Some r) =>
      processed st' = set_of ["https://example.com/a";
                              "https://example.com/b";
                              "https://example.com/a"] /\
      total r = List.length (set_of ["https://example.com/a";
                                     "https://example.com/b";
                                     "https://example.com/a"])
  | Throw e, Throw e' =>
      e = e' /\ many_field (Some More.rejecting) onError <> None
  | _, _ => False
  end.
Proof.
  apply (@scrapeMany_in_order Sample.defaults 2
           ["https://example.com/a"; "https://example.com/b";
            "https://example.com/a"]
           More.browsing (Some More.rejecting) (Sample.start Sample.calm)).
  - split; intros f ctx t H; [injection H as <-; reflexivity | discriminate].
  - intros [H | [H | [H | []]]]; discriminate.
  - vm_compute. lia.
Defined.



